(** * Verification of the backtracking Sudoku solver ([solver.py])

    The three methods of class [Solver] ([find_empty], [is_valid],
    [solve_sudoku]) are embedded as programs of a small state-and-exception
    monad over the board, and the properties of the solver are proved about
    these programs. *)

From Stdlib Require Import ZArith String DecimalString.
From stdpp Require Import base tactics decidable option list list_numbers strings.

Local Open Scope string_scope.
Local Open Scope Z_scope.

(** ** Python values *)

(** [board: list[list[str]]].  A board is a list of row lists.  The rows are
    distinct list objects (as [get_board] in [main.py] builds them: one list
    comprehension per row), so the board is a value: writing a cell of one
    row changes no other row. *)
Abbreviation board := (list (list string)) (only parsing).

(** Position of index [i] in a list of length [len], as Python resolves
    [l[i]]: negative indices count from the end, anything outside
    [-len .. len-1] is an [IndexError] (here [None]). *)
Definition py_norm (len : nat) (i : Z) : option nat :=
  if (0 <=? i) && (i <? Z.of_nat len) then Some (Z.to_nat i)
  else if (- Z.of_nat len <=? i) && (i <? 0) then Some (Z.to_nat (Z.of_nat len + i))
  else None.

(** [l[i]] *)
Definition py_getitem {A : Type} (l : list A) (i : Z) : option A :=
  k ← py_norm (length l) i; l !! k.

(** [l[i] = x] *)
Definition py_setitem {A : Type} (l : list A) (i : Z) (x : A) : option (list A) :=
  k ← py_norm (length l) i; Some (<[k:=x]> l).

(** [range(lo, hi)] *)
Definition range (lo hi : Z) : list Z := seqZ lo (hi - lo).
Arguments range : simpl never.

(** [str(n)] for an [int]. *)
Definition str (n : Z) : string := NilZero.string_of_int (Z.to_int n).

(** [map(str, range(1, 10))] *)
Definition digits : list string := Eval vm_compute in map str (range 1 10).

(** ** The state of a run *)

(** One assignment [board[row][col] = v] (lines 31 and 34 of [solver.py]),
    with the board as it is right after it. *)
Record write_event : Type := WriteEvent {
  w_row : Z;
  w_col : Z;
  w_val : string;
  w_after : board
}.

(** The board object, and the history of the writes made to it (newest
    first).  The history is ghost state: no program reads it; it lets the
    intermediate boards of a search be named. *)
Record state : Type := State {
  cells : board;
  history : list write_event
}.

(** How a call ends: it returns a value, it raises [IndexError] (the only
    exception these methods can raise on a [list[list[str]]]), or the
    recursion budget of the model is exhausted. *)
Inductive result (A : Type) : Type :=
| Done (a : A)
| IndexError
| OutOfFuel.
Arguments Done {A} a.
Arguments IndexError {A}.
Arguments OutOfFuel {A}.

Definition M (A : Type) : Type := state → result A * state.

Definition ret {A : Type} (a : A) : M A := λ st, (Done a, st).

Definition bind {A B : Type} (m : M A) (k : A → M B) : M B :=
  λ st,
    match m st with
    | (Done a, st') => k a st'
    | (IndexError, st') => (IndexError, st')
    | (OutOfFuel, st') => (OutOfFuel, st')
    end.

Definition raise_IndexError {A : Type} : M A := λ st, (IndexError, st).

Definition out_of_fuel {A : Type} : M A := λ st, (OutOfFuel, st).

Declare Scope py_scope.
Delimit Scope py_scope with py.
Notation "x <~ m ;; k" := (bind m (λ x, k))
  (at level 100, m at next level, right associativity) : py_scope.
Notation "m ;;; k" := (bind m (λ _, k))
  (at level 100, right associativity) : py_scope.
Local Open Scope py_scope.

(** [board[i][j]] as an expression. *)
Definition read (i j : Z) : M string :=
  λ st,
    match py_getitem (cells st) i with
    | None => raise_IndexError st
    | Some row =>
        match py_getitem row j with
        | None => raise_IndexError st
        | Some v => ret v st
        end
    end.

(** The board after [board[i][j] = v]: the row object [board[i]] is fetched,
    then its item [j] is assigned. *)
Definition assign (b : board) (i j : Z) (v : string) : option board :=
  k ← py_norm (length b) i;
  row ← b !! k;
  row' ← py_setitem row j v;
  Some (<[k:=row']> b).

(** [board[i][j] = v] as a statement. *)
Definition write (i j : Z) (v : string) : M unit :=
  λ st,
    match assign (cells st) i j v with
    | None => raise_IndexError st
    | Some b' => ret tt (State b' (WriteEvent i j v b' :: history st))
    end.

(** [for x in l: body], where the body either executes [return y]
    ([Some y]) or falls through to the next iteration ([None]). *)
Fixpoint for_each {A B : Type} (l : list A) (body : A → M (option B)) : M (option B) :=
  match l with
  | [] => ret None
  | x :: l' =>
      r <~ body x;;
      match r with
      | Some y => ret (Some y)
      | None => for_each l' body
      end
  end.

(** ** The methods of [Solver] *)

(** [Solver.find_empty], lines 78-82. *)
Definition find_empty : M (option (Z * Z)) :=
  for_each (range 0 9) (λ i,
    for_each (range 0 9) (λ j,
      v <~ read i j;;
      if String.eqb v "" then ret (Some (i, j)) else ret None)).

(** [Solver.is_valid], lines 53-65.  The [or] of line 54 evaluates its right
    operand only when the left one is false. *)
Definition is_valid (row col : Z) (digit : string) : M bool :=
  r <~ for_each (range 0 9) (λ i,
         x <~ read row i;;
         if String.eqb x digit then ret (Some false)
         else
           y <~ read i col;;
           if String.eqb y digit then ret (Some false) else ret None);;
  match r with
  | Some v => ret v
  | None =>
      let top_row := (row / 3) * 3 in
      let top_col := (col / 3) * 3 in
      r <~ for_each (range top_row (top_row + 3)) (λ i,
             for_each (range top_col (top_col + 3)) (λ j,
               x <~ read i j;;
               if String.eqb x digit then ret (Some false) else ret None));;
      match r with
      | Some v => ret v
      | None => ret true
      end
  end.

(** The body of [Solver.solve_sudoku], lines 24-36, with the recursive call
    [self.solve_sudoku(board)] of line 32 as the parameter [self_solve]. *)
Definition solve_body (self_solve : M bool) : M bool :=
  cell <~ find_empty;;
  match cell with
  | None => ret true
  | Some (row, col) =>
      r <~ for_each digits (λ digit,
             ok <~ is_valid row col digit;;
             if ok then
               write row col digit;;;
               solved <~ self_solve;;
               if solved then ret (Some true)
               else (write row col "";;; ret None)
             else ret None);;
      match r with
      | Some v => ret v
      | None => ret false
      end
  end.

(** [Solver.solve_sudoku].  [depth] is the number of nested recursive calls
    the run may make below this call; a call that would go deeper ends in
    [OutOfFuel]. *)
Fixpoint solve_sudoku (depth : nat) : M bool :=
  solve_body
    match depth with
    | O => out_of_fuel
    | S d => solve_sudoku d
    end.

(** ** Specification vocabulary *)

(** A cell coordinate [(row, col)]. *)
Abbreviation pos := (Z * Z)%type (only parsing).

(** Nine rows of nine cells. *)
Definition shape9 (b : board) : Prop :=
  length b = 9%nat ∧ Forall (λ row : list string, length row = 9%nat) b.

(** Row and column in [0, 8]. *)
Definition in_grid (p : pos) : Prop := (0 ≤ p.1 < 9) ∧ (0 ≤ p.2 < 9).

(** The 81 coordinates in row-major order. *)
Definition grid : list pos := i ← range 0 9; j ← range 0 9; [(i, j)].

(** The content of a cell of the grid ([""] outside of the board). *)
Definition cell (b : board) (p : pos) : string :=
  default "" (row ← b !! Z.to_nat p.1; row !! Z.to_nat p.2).

(** The board with one cell of the grid replaced. *)
Definition upd (b : board) (p : pos) (v : string) : board :=
  alter (λ row, <[Z.to_nat p.2 := v]> row) (Z.to_nat p.1) b.

(** Number of cells that hold the empty marker. *)
Definition count_empty (b : board) : nat :=
  length (filter (λ v : string, v = "") (concat b)).

(** [p] comes before [q] in row-major order. *)
Definition before (p q : pos) : Prop := p.1 < q.1 ∨ (p.1 = q.1 ∧ p.2 < q.2).

(** Two cells share a row, a column or a 3x3 box. *)
Definition same_unit (p q : pos) : Prop :=
  p.1 = q.1 ∨ p.2 = q.2 ∨ (p.1 / 3 = q.1 / 3 ∧ p.2 / 3 = q.2 / 3).

(** The filled cells form a partial assignment without a duplicate in any
    row, column or box. *)
Definition consistent (b : board) : Prop :=
  Forall (λ p, Forall (λ q,
    p ≠ q → same_unit p q → cell b p ≠ "" → cell b q ≠ cell b p) grid) grid.

(** Every filled cell of [b] holds the same value in [b']. *)
Definition extends (b b' : board) : Prop :=
  Forall (λ p, cell b p ≠ "" → cell b' p = cell b p) grid.

(** No cell is empty. *)
Definition full (b : board) : Prop := Forall (λ p, cell b p ≠ "") grid.

(** Every cell holds a digit or the empty marker (the input contract). *)
Definition digit_cells (b : board) : Prop :=
  Forall (λ p, cell b p ∈ "" :: digits) grid.

(** The rows, the columns and the boxes, as lists of coordinates. *)
Definition row_cells (r : Z) : list pos := (λ j, (r, j)) <$> range 0 9.
Definition col_cells (c : Z) : list pos := (λ i, (i, c)) <$> range 0 9.
Definition box_cells (o : pos) : list pos :=
  i ← range o.1 (o.1 + 3); j ← range o.2 (o.2 + 3); [(i, j)].
Definition box_origins : list pos :=
  i ← range 0 3; j ← range 0 3; [(i * 3, j * 3)].
Definition units : list (list pos) :=
  (row_cells <$> range 0 9) ++ (col_cells <$> range 0 9) ++ (box_cells <$> box_origins).

(** Number of cells of [u] that hold [d]. *)
Definition occurrences (b : board) (u : list pos) (d : string) : nat :=
  length (filter (λ p, cell b p = d) u).

(** Every row, every column and every box contains each digit exactly
    once. *)
Definition solved (b : board) : Prop :=
  Forall (λ u, Forall (λ d, occurrences b u d = 1%nat) digits) units.

(** [s] is a valid completion of [b]. *)
Definition completion (b s : board) : Prop :=
  shape9 s ∧ solved s ∧ extends b s.

(** The first [Some] that [f] yields along [l]. *)
Fixpoint first_some {A B : Type} (f : A → option B) (l : list A) : option B :=
  match l with
  | [] => None
  | x :: l' =>
      match f x with
      | Some y => Some y
      | None => first_some f l'
      end
  end.

(** A program that leaves the state as it found it. *)
Definition read_only {A : Type} (m : M A) : Prop := ∀ st, (m st).2 = st.

(** ** Proof vocabulary *)

(** What [find_empty] computes on a 9x9 board. *)
Definition first_empty (b : board) : option pos :=
  first_some (λ i,
    first_some (λ j, if String.eqb (cell b (i, j)) "" then Some (i, j) else None)
      (range 0 9))
    (range 0 9).

(** The cells that [is_valid] compares with the digit: the row, the column
    and the box of [p], the cell [p] itself included. *)
Definition scanned (p q : pos) : Prop :=
  in_grid q ∧
  (q.1 = p.1 ∨ q.2 = p.2 ∨
   (p.1 / 3 * 3 ≤ q.1 < p.1 / 3 * 3 + 3 ∧ p.2 / 3 * 3 ≤ q.2 < p.2 / 3 * 3 + 3)).

(** [s] fills the empty cells of [b] with digits, each of them different
    from every other cell of its row, column and box; the filled cells of
    [b] are kept. *)
Definition fills (b s : board) : Prop :=
  shape9 s ∧
  ∀ p, in_grid p →
    (cell b p ≠ "" → cell s p = cell b p) ∧
    (cell b p = "" →
       cell s p ∈ digits ∧
       ∀ q, in_grid q → q ≠ p → same_unit p q → cell s q ≠ cell s p).

(** What holds of every write of a search started on [b]. *)
Definition event_ok (b : board) (e : write_event) : Prop :=
  in_grid (w_row e, w_col e) ∧
  cell b (w_row e, w_col e) = "" ∧
  w_val e ∈ "" :: digits ∧
  shape9 (w_after e) ∧
  extends b (w_after e) ∧
  (consistent b → consistent (w_after e)).

(** The outcome of a call of [solve_sudoku] entered in state [st]. *)
Definition solve_post (st : state) (out : result bool * state) : Prop :=
  ∃ (r : bool) (b' : board) (tr : list write_event),
    out = (Done r, State b' (tr ++ history st)) ∧
    shape9 b' ∧
    Forall (event_ok (cells st)) tr ∧
    if r then fills (cells st) b'
    else b' = cells st ∧ ∀ s, ¬ fills (cells st) s.

(** The body of the loop of lines 29-34. *)
Definition try_digit (self_solve : M bool) (row col : Z) (digit : string)
    : M (option bool) :=
  ok <~ is_valid row col digit;;
  if ok then
    write row col digit;;;
    solved <~ self_solve;;
    if solved then ret (Some true)
    else (write row col "";;; ret None)
  else ret None.

(** The outcome of the loop over the digits [ds] at the empty cell [p],
    entered with board [b] and history [h]. *)
Definition loop_post (b : board) (p : pos) (ds : list string)
    (h : list write_event) (out : result (option bool) * state) : Prop :=
  ∃ (r : option bool) (b' : board) (tr : list write_event),
    out = (Done r, State b' (tr ++ h)) ∧
    shape9 b' ∧
    Forall (event_ok b) tr ∧
    match r with
    | Some true => fills b b'
    | Some false => False
    | None => b' = b ∧ ∀ s, fills b s → cell s p ∉ ds
    end.

(** The recursive call [self_solve] meets its specification on every board
    with fewer empty cells than [b]; [self_solve'] is any program that agrees
    with it on these boards. *)
Definition smaller_calls_ok (b : board) (self_solve self_solve' : M bool) : Prop :=
  ∀ st1, shape9 (cells st1) → (count_empty (cells st1) < count_empty b)%nat →
         solve_post st1 (self_solve st1) ∧ self_solve' st1 = self_solve st1.

(** A recursive call that is only allowed on a board with strictly fewer
    empty cells than the board [b] of its caller. *)
Definition descending (b : board) (self_solve : M bool) : M bool :=
  λ st,
    if decide (count_empty (cells st) < count_empty b)%nat then self_solve st
    else (OutOfFuel, st).

(** [solve_sudoku] with every recursive call of the run checked by
    [descending]. *)
Fixpoint solve_sudoku_descending (depth : nat) : M bool :=
  λ st,
    solve_body
      (descending (cells st)
         match depth with
         | O => out_of_fuel
         | S d => solve_sudoku_descending d
         end) st.

(** ** Decision procedures *)

(** Decide a closed decidable proposition by evaluation. *)
Ltac by_evaluation :=
  lazymatch goal with
  | |- ?P => apply (bool_decide_unpack P); vm_compute; exact I
  end.

#[global] Instance in_grid_dec (p : pos) : Decision (in_grid p).
Proof. unfold in_grid. apply _. Defined.

#[global] Instance same_unit_dec (p q : pos) : Decision (same_unit p q).
Proof. unfold same_unit. apply _. Defined.

#[global] Instance shape9_dec (b : board) : Decision (shape9 b).
Proof. unfold shape9. apply _. Defined.
#[global] Instance consistent_dec (b : board) : Decision (consistent b).
Proof. unfold consistent. apply _. Defined.
#[global] Instance extends_dec (b b' : board) : Decision (extends b b').
Proof. unfold extends. apply _. Defined.
#[global] Instance full_dec (b : board) : Decision (full b).
Proof. unfold full. apply _. Defined.
#[global] Instance digit_cells_dec (b : board) : Decision (digit_cells b).
Proof. unfold digit_cells. apply _. Defined.
#[global] Instance solved_dec (b : board) : Decision (solved b).
Proof. unfold solved, occurrences. apply _. Defined.
#[global] Instance completion_dec (b s : board) : Decision (completion b s).
Proof. unfold completion. apply _. Defined.

(** ** Test boards *)

(** The classic puzzle whose row 0 is [53..7....], and its solution. *)
Definition classic : board := [
  ["5"; "3"; "";  "";  "7"; "";  "";  "";  "" ];
  ["6"; "";  "";  "1"; "9"; "5"; "";  "";  "" ];
  ["";  "9"; "8"; "";  "";  "";  "";  "6"; "" ];
  ["8"; "";  "";  "";  "6"; "";  "";  "";  "3"];
  ["4"; "";  "";  "8"; "";  "3"; "";  "";  "1"];
  ["7"; "";  "";  "";  "2"; "";  "";  "";  "6"];
  ["";  "6"; "";  "";  "";  "";  "2"; "8"; "" ];
  ["";  "";  "";  "4"; "1"; "9"; "";  "";  "5"];
  ["";  "";  "";  "";  "8"; "";  "";  "7"; "9"]].

Definition classic_solution : board := [
  ["5"; "3"; "4"; "6"; "7"; "8"; "9"; "1"; "2"];
  ["6"; "7"; "2"; "1"; "9"; "5"; "3"; "4"; "8"];
  ["1"; "9"; "8"; "3"; "4"; "2"; "5"; "6"; "7"];
  ["8"; "5"; "9"; "7"; "6"; "1"; "4"; "2"; "3"];
  ["4"; "2"; "6"; "8"; "5"; "3"; "7"; "9"; "1"];
  ["7"; "1"; "3"; "9"; "2"; "4"; "8"; "5"; "6"];
  ["9"; "6"; "1"; "5"; "3"; "7"; "2"; "8"; "4"];
  ["2"; "8"; "7"; "4"; "1"; "9"; "6"; "3"; "5"];
  ["3"; "4"; "5"; "2"; "8"; "6"; "1"; "7"; "9"]].

(** The solution with its first cell emptied and its last cell overwritten
    by the ["7"] of its left neighbour: two ["7"] in the last row. *)
Definition clash : board := [
  ["";  "3"; "4"; "6"; "7"; "8"; "9"; "1"; "2"];
  ["6"; "7"; "2"; "1"; "9"; "5"; "3"; "4"; "8"];
  ["1"; "9"; "8"; "3"; "4"; "2"; "5"; "6"; "7"];
  ["8"; "5"; "9"; "7"; "6"; "1"; "4"; "2"; "3"];
  ["4"; "2"; "6"; "8"; "5"; "3"; "7"; "9"; "1"];
  ["7"; "1"; "3"; "9"; "2"; "4"; "8"; "5"; "6"];
  ["9"; "6"; "1"; "5"; "3"; "7"; "2"; "8"; "4"];
  ["2"; "8"; "7"; "4"; "1"; "9"; "6"; "3"; "5"];
  ["3"; "4"; "5"; "2"; "8"; "6"; "1"; "7"; "7"]].

(** A consistent board without a completion: the last cell of row 0 needs a
    ["9"], which its column already holds. *)
Definition dead_end : board := [
  ["1"; "2"; "3"; "4"; "5"; "6"; "7"; "8"; "" ];
  ["";  "";  "";  "";  "";  "";  "";  "";  "9"];
  ["";  "";  "";  "";  "";  "";  "";  "";  "" ];
  ["";  "";  "";  "";  "";  "";  "";  "";  "" ];
  ["";  "";  "";  "";  "";  "";  "";  "";  "" ];
  ["";  "";  "";  "";  "";  "";  "";  "";  "" ];
  ["";  "";  "";  "";  "";  "";  "";  "";  "" ];
  ["";  "";  "";  "";  "";  "";  "";  "";  "" ];
  ["";  "";  "";  "";  "";  "";  "";  "";  "" ]].

(** A full board that breaks every rule. *)
Definition all_ones : board := replicate 9 (replicate 9 "1").

(** The condition of C3: no cell other than [p] in the row of [p], in its
    column, or in the box with origin [(row // 3 * 3, col // 3 * 3)] holds
    [d]. *)
Definition others_free (b : board) (p : pos) (d : string) : Prop :=
  Forall (λ j, j ≠ p.2 → cell b (p.1, j) ≠ d) (range 0 9) ∧
  Forall (λ i, i ≠ p.1 → cell b (i, p.2) ≠ d) (range 0 9) ∧
  Forall (λ q, q ≠ p → cell b q ≠ d) (box_cells (p.1 / 3 * 3, p.2 / 3 * 3)).

#[global] Instance others_free_dec (b : board) (p : pos) (d : string) :
  Decision (others_free b p d).
Proof. unfold others_free. apply _. Defined.

(** ** More vocabulary *)

(** The two boards have as many rows, of the same lengths. *)
Definition same_shape (b b' : board) : Prop := length <$> b = length <$> b'.

(** The board has the cells that the solver reads: at least nine rows, and
    at least nine cells in each of the first nine. *)
Definition covers_grid (b : board) : Prop :=
  (9 ≤ length b)%nat ∧ Forall (λ row : list string, (9 ≤ length row)%nat) (take 9 b).

#[global] Instance covers_grid_dec (b : board) : Decision (covers_grid b).
Proof. unfold covers_grid. apply _. Defined.

(** A program whose final state is always related by [R] to its initial
    state. *)
Definition keeps {A : Type} (R : state → state → Prop) (m : M A) : Prop :=
  ∀ st, R st (m st).2.

(** A board of one row of two cells. *)
Definition stub : board := [["1"; ""]].

(** The digit [d] is tried before the digit [d'] by the loop of line 29. *)
Definition digit_lt (d d' : string) : Prop :=
  ∃ i j : nat, digits !! i = Some d ∧ digits !! j = Some d' ∧ (i < j)%nat.

(** [b] comes before [s], or equals it on the grid, in the order that
    compares the cells in row-major order, each by the order of the
    digits. *)
Definition lex_le (b s : board) : Prop :=
  (∀ p, in_grid p → cell b p = cell s p) ∨
  ∃ p, in_grid p ∧ digit_lt (cell b p) (cell s p) ∧
       ∀ q, in_grid q → before q p → cell b q = cell s q.

(** The recursive call returns, of the boards that fill its board, one that
    comes first. *)
Definition smaller_calls_first (b : board) (self_solve : M bool) : Prop :=
  ∀ st1 st2, shape9 (cells st1) → (count_empty (cells st1) < count_empty b)%nat →
             self_solve st1 = (Done true, st2) →
             ∀ s, fills (cells st1) s → lex_le (cells st2) s.

(** ** The user interface ([main.py]) *)

(** [list(s)] for a [str]: its characters, each as a [str]. *)
Definition py_list_of_str (s : string) : list string :=
  (λ c, String c EmptyString) <$> list_ascii_of_string s.

(** [x in l] for a list of [str]. *)
Definition py_in (x : string) (l : list string) : bool :=
  existsb (String.eqb x) l.

(** A [tk.Entry] widget, as the text it holds, with the three methods that
    [main.py] calls. *)
Module Entry.
(** [entry.get()] *)
Definition get (text : string) : string := text.
(** The text after [entry.delete(0, tk.END)]. *)
Definition delete_all (text : string) : string := "".
(** The text after [entry.insert(0, s)]. *)
Definition insert_0 (s text : string) : string := (s ++ text)%string.
End Entry.

Module SudokuUI.

(** What the user sees: the texts of the 9x9 [Entry] widgets of
    [self.entries] (built once by [build_grid], lines 39-68), the dialogs
    shown by [messagebox.showinfo] (title and message, newest first) and
    the boards printed by line 167 (newest first). *)
Record ui : Type := UI {
  entries : list (list string);
  dialogs : list (string * string);
  printed : list (list (list string))
}.

Definition U (A : Type) : Type := ui → result A * ui.

(** [for x in l: body], for a body without [return]. *)
Fixpoint for_in {A : Type} (l : list A) (body : A → U unit) : U unit :=
  match l with
  | [] => λ u, (Done tt, u)
  | x :: l' =>
      λ u,
        match body x u with
        | (Done _, u') => for_in l' body u'
        | (IndexError, u') => (IndexError, u')
        | (OutOfFuel, u') => (OutOfFuel, u')
        end
  end.

(** The expression [self.entries[i][j]]: the text of that widget. *)
Definition entry_at (i j : Z) (u : ui) : option string :=
  row ← py_getitem (entries u) i; py_getitem row j.

(** The widget [self.entries[i][j]] gets the text [text]. *)
Definition with_entry (i j : Z) (text : string) (u : ui) : ui :=
  match assign (entries u) i j text with
  | Some e => UI e (dialogs u) (printed u)
  | None => u
  end.

(** [validate_entry], lines 123-126, on the widget of the event. *)
Definition validate_entry (text : string) : string :=
  let val := Entry.get text in
  if negb (py_in val (py_list_of_str "123456789")) then Entry.delete_all text
  else text.

(** [clear_board], lines 132-134. *)
Definition clear_board : U unit :=
  λ u,
    (Done tt,
     UI ((λ row : list string, (λ cell, Entry.delete_all cell) <$> row) <$> entries u)
        (dialogs u) (printed u)).

(** [get_board], lines 143-146: a new list of new rows. *)
Definition get_board (u : ui) : list (list string) :=
  (λ row : list string, (λ cell, Entry.get cell) <$> row) <$> entries u.

(** The body of the loops of [set_board], lines 157-159. *)
Definition set_board_cell (board : list (list string)) (i j : Z) : U unit :=
  λ u,
    match entry_at i j u with
    | None => (IndexError, u)
    | Some text =>
        let u1 := with_entry i j (Entry.delete_all text) u in
        match row ← py_getitem board i; py_getitem row j with
        | None => (IndexError, u1)
        | Some v =>
            if negb (String.eqb v ".") then
              match entry_at i j u1 with
              | None => (IndexError, u1)
              | Some text1 => (Done tt, with_entry i j (Entry.insert_0 v text1) u1)
              end
            else (Done tt, u1)
        end
    end.

(** [set_board], lines 155-159. *)
Definition set_board (board : list (list string)) : U unit :=
  for_in (range 0 9) (λ i,
    for_in (range 0 9) (λ j, set_board_cell board i j)).

(** [solve], lines 165-171.  [depth] is the recursion budget given to
    [Solver.solve_sudoku]. *)
Definition solve (depth : nat) : U unit :=
  λ u,
    let board := get_board u in
    let u1 := UI (entries u) (dialogs u) (board :: printed u) in
    match solve_sudoku depth (State board []) with
    | (Done ok, st') =>
        if negb ok then
          (Done tt,
           UI (entries u1) (("Sudoku Solver", "No solution found.") :: dialogs u1)
              (printed u1))
        else set_board (cells st') u1
    | (IndexError, _) => (IndexError, u1)
    | (OutOfFuel, _) => (OutOfFuel, u1)
    end.

End SudokuUI.

(** A board as [set_board] shows it: a cell that holds ["."] is shown
    empty. *)
Definition shown (board : list (list string)) : list (list string) :=
  (λ row : list string, (λ v, if String.eqb v "." then "" else v) <$> row) <$> board.

(** The board of 81 empty cells. *)
Definition blank : list (list string) := replicate 9 (replicate 9 "").

(** What [set_board] leaves in one widget. *)
Definition show_cell (board : list (list string)) (p : Z * Z) (u : SudokuUI.ui)
    : SudokuUI.ui :=
  SudokuUI.UI
    (upd (SudokuUI.entries u) p
       (if String.eqb (cell board p) "." then "" else cell board p))
    (SudokuUI.dialogs u) (SudokuUI.printed u).

(** ** Runs on boards of any shape *)

(** A program that never exhausts the recursion budget. *)
Definition fuel_free {A : Type} (m : M A) : Prop := ∀ st, (m st).1 ≠ OutOfFuel.

(** The outcome of a call of [solve_sudoku] entered in state [st], whatever
    the shape of the board: the budget is not exhausted, and a call that
    returns [False] leaves the board as it was. *)
Definition any_post (st : state) (out : result bool * state) : Prop :=
  out.1 ≠ OutOfFuel ∧ (out.1 = Done false → cells out.2 = cells st).

(** A board whose last row lacks its last cell; the first eight cells of
    row 0 are empty. *)
Definition short_row : board := [
  ["";  "";  "";  "";  "";  "";  "";  "";  "2"];
  ["6"; "7"; "2"; "1"; "9"; "5"; "3"; "4"; "8"];
  ["1"; "9"; "8"; "3"; "4"; "2"; "5"; "6"; "7"];
  ["8"; "5"; "9"; "7"; "6"; "1"; "4"; "2"; "3"];
  ["4"; "2"; "6"; "8"; "5"; "3"; "7"; "9"; "1"];
  ["7"; "1"; "3"; "9"; "2"; "4"; "8"; "5"; "6"];
  ["9"; "6"; "1"; "5"; "3"; "7"; "2"; "8"; "4"];
  ["2"; "8"; "7"; "4"; "1"; "9"; "6"; "3"; "5"];
  ["3"; "4"; "5"; "2"; "8"; "6"; "1"; "7"]].

(** A consistent board without a completion on which the search writes and
    undoes: the first cell takes ["1"] (its column holds ["2"]), after which
    the second cell has no digit left (its column holds ["2"] too). *)
Definition backtrack : board := [
  ["";  "";  "3"; "4"; "5"; "6"; "7"; "8"; "9"];
  ["";  "";  "";  "";  "";  "";  "";  "";  "" ];
  ["";  "";  "";  "";  "";  "";  "";  "";  "" ];
  ["2"; "";  "";  "";  "";  "";  "";  "";  "" ];
  ["";  "";  "";  "";  "";  "";  "";  "";  "" ];
  ["";  "";  "";  "";  "";  "";  "";  "";  "" ];
  ["";  "2"; "";  "";  "";  "";  "";  "";  "" ];
  ["";  "";  "";  "";  "";  "";  "";  "";  "" ];
  ["";  "";  "";  "";  "";  "";  "";  "";  "" ]].

(** * Proofs *)

(** ** Indexing *)

Lemma py_norm_in_range (len : nat) (i : Z) :
  0 ≤ i < Z.of_nat len → py_norm len i = Some (Z.to_nat i).
Proof.
  intros Hi. unfold py_norm.
  destruct (Z.leb_spec 0 i); [|lia].
  destruct (Z.ltb_spec i (Z.of_nat len)); [done|lia].
Qed.

Lemma elem_of_range (lo hi k : Z) : k ∈ range lo hi ↔ lo ≤ k < hi.
Proof. unfold range. rewrite elem_of_seqZ. lia. Qed.

Lemma elem_of_grid (p : pos) : p ∈ grid ↔ in_grid p.
Proof.
  unfold grid, in_grid. rewrite list_elem_of_bind. split.
  - intros (i & Hp & Hi). apply list_elem_of_bind in Hp as (j & Hp & Hj).
    apply list_elem_of_singleton in Hp as ->.
    apply elem_of_range in Hi, Hj. done.
  - destruct p as [i j]. intros [Hi Hj]. simpl in Hi, Hj. exists i. split.
    + apply list_elem_of_bind. exists j. split; [by apply list_elem_of_singleton|].
      by apply elem_of_range.
    + by apply elem_of_range.
Qed.

Lemma shape9_row (b : board) (p : pos) :
  shape9 b → in_grid p →
  ∃ row, b !! Z.to_nat p.1 = Some row ∧ length row = 9%nat.
Proof.
  intros [Hlen Hrows] [Hr _].
  destruct (lookup_lt_is_Some_2 b (Z.to_nat p.1)) as [row Hrow]; [lia|].
  exists row. split; [done|].
  by apply (Forall_lookup_1 _ _ _ _ Hrows Hrow).
Qed.

Lemma shape9_lookup (b : board) (p : pos) :
  shape9 b → in_grid p →
  ∃ row, b !! Z.to_nat p.1 = Some row ∧ length row = 9%nat
         ∧ row !! Z.to_nat p.2 = Some (cell b p).
Proof.
  intros Hb Hp. destruct (shape9_row b p Hb Hp) as (row & Hrow & Hlen).
  exists row. split_and!; [done..|].
  destruct Hp as [_ Hc].
  destruct (lookup_lt_is_Some_2 row (Z.to_nat p.2)) as [v Hv]; [lia|].
  unfold cell. rewrite Hrow. simpl. by rewrite Hv.
Qed.

Lemma read_run (i j : Z) (st : state) :
  shape9 (cells st) → in_grid (i, j) →
  read i j st = (Done (cell (cells st) (i, j)), st).
Proof.
  intros Hb Hp.
  destruct (shape9_lookup _ _ Hb Hp) as (row & Hrow & Hlen & Hv).
  destruct Hb as [Hb _]. destruct Hp as [Hi Hj]. cbn [fst snd] in *.
  unfold read, py_getitem.
  rewrite py_norm_in_range by lia. simpl. rewrite Hrow.
  rewrite py_norm_in_range by lia. simpl. by rewrite Hv.
Qed.

Lemma assign_run (b : board) (p : pos) (v : string) :
  shape9 b → in_grid p → assign b p.1 p.2 v = Some (upd b p v).
Proof.
  intros Hb Hp.
  destruct (shape9_row _ _ Hb Hp) as (row & Hrow & Hlen).
  destruct Hb as [Hb _]. destruct Hp as [Hi Hj].
  unfold assign, py_setitem, upd.
  rewrite py_norm_in_range by lia. simpl. rewrite Hrow. simpl.
  rewrite py_norm_in_range by lia. simpl. f_equal.
  apply list_eq. intros k.
  destruct (decide (k = Z.to_nat p.1)) as [->|Hne].
  - rewrite list_lookup_alter_eq, Hrow. simpl.
    apply list_lookup_insert_eq. by apply lookup_lt_Some in Hrow.
  - by rewrite list_lookup_alter_ne, list_lookup_insert_ne by done.
Qed.

Lemma shape9_upd (b : board) (p : pos) (v : string) :
  shape9 b → shape9 (upd b p v).
Proof.
  intros [Hlen Hrows]. unfold upd. split.
  - by rewrite length_alter.
  - apply Forall_alter; [done|]. intros row _ Hrow. by rewrite length_insert.
Qed.

Lemma cell_upd (b : board) (p q : pos) (v : string) :
  shape9 b → in_grid p → in_grid q →
  cell (upd b p v) q = if decide (p = q) then v else cell b q.
Proof.
  intros Hb Hp Hq.
  destruct (shape9_lookup _ _ Hb Hp) as (row & Hrow & Hlen & Hv).
  destruct Hp as [Hp1 Hp2]. destruct Hq as [Hq1 Hq2].
  unfold cell at 1. unfold upd.
  destruct (decide (p.1 = q.1)) as [H1|H1].
  - rewrite <- H1, list_lookup_alter_eq, Hrow. simpl.
    destruct (decide (p.2 = q.2)) as [H2|H2].
    + rewrite <- H2, list_lookup_insert_eq by lia. simpl.
      rewrite decide_True; [done|]. destruct p, q; simpl in *; congruence.
    + rewrite list_lookup_insert_ne by lia.
      rewrite decide_False by congruence.
      unfold cell. by rewrite <- H1, Hrow.
  - rewrite list_lookup_alter_ne by lia.
    rewrite decide_False by congruence. done.
Qed.

Lemma cell_upd_eq (b : board) (p : pos) (v : string) :
  shape9 b → in_grid p → cell (upd b p v) p = v.
Proof. intros Hb Hp. rewrite cell_upd by done. by rewrite decide_True. Qed.

Lemma cell_upd_ne (b : board) (p q : pos) (v : string) :
  shape9 b → in_grid p → in_grid q → p ≠ q → cell (upd b p v) q = cell b q.
Proof. intros Hb Hp Hq Hne. rewrite cell_upd by done. by rewrite decide_False. Qed.

(** Two 9x9 boards with the same cells are the same board. *)
Lemma board_ext (b b' : board) :
  shape9 b → shape9 b' → (∀ p, in_grid p → cell b p = cell b' p) → b = b'.
Proof.
  intros Hb Hb' Hcells. apply list_eq. intros i.
  destruct (decide (i < 9)%nat) as [Hi|Hi].
  2:{ rewrite !lookup_ge_None_2; [done|destruct Hb'; lia|destruct Hb; lia]. }
  assert (Hp0 : in_grid (Z.of_nat i, 0)) by (unfold in_grid; simpl; lia).
  destruct (shape9_row _ _ Hb Hp0) as (row & Hrow & Hlen).
  destruct (shape9_row _ _ Hb' Hp0) as (row' & Hrow' & Hlen').
  simpl in Hrow, Hrow'. rewrite Nat2Z.id in Hrow, Hrow'.
  rewrite Hrow, Hrow'. f_equal. apply list_eq. intros j.
  destruct (decide (j < 9)%nat) as [Hj|Hj].
  2:{ rewrite !lookup_ge_None_2; [done|lia..]. }
  assert (Hp : in_grid (Z.of_nat i, Z.of_nat j)) by (unfold in_grid; simpl; lia).
  specialize (Hcells _ Hp). unfold cell in Hcells. simpl in Hcells.
  rewrite !Nat2Z.id, Hrow, Hrow' in Hcells. simpl in Hcells.
  destruct (lookup_lt_is_Some_2 row j) as [v Hv]; [lia|].
  destruct (lookup_lt_is_Some_2 row' j) as [v' Hv']; [lia|].
  rewrite Hv, Hv' in Hcells |- *. simpl in Hcells. by subst.
Qed.

(** Writing back what a cell held restores the board. *)
Lemma upd_restore (b : board) (p : pos) (v : string) :
  shape9 b → in_grid p → upd (upd b p v) p (cell b p) = b.
Proof.
  intros Hb Hp. apply board_ext; [by do 2 apply shape9_upd|done|].
  intros q Hq. rewrite !cell_upd by (done || by apply shape9_upd).
  by destruct (decide (p = q)) as [->|].
Qed.

(** ** Loops *)

Lemma first_some_None {A B : Type} (f : A → option B) (l : list A) :
  first_some f l = None ↔ ∀ x, x ∈ l → f x = None.
Proof.
  induction l as [|a l IH]; simpl.
  - split; [|done]. intros _ x Hx. by apply elem_of_nil in Hx.
  - destruct (f a) eqn:Hfa.
    + split; [done|]. intros H. rewrite H in Hfa; [done|]. by left.
    + rewrite IH. split.
      * intros H x Hx. apply elem_of_cons in Hx as [->|Hx]; auto.
      * intros H x Hx. apply H. by right.
Qed.

Lemma first_some_elem {A B : Type} (f : A → option B) (l : list A) (y : B) :
  first_some f l = Some y → ∃ x, x ∈ l ∧ f x = Some y.
Proof.
  induction l as [|a l IH]; simpl; [done|].
  destruct (f a) eqn:Hfa.
  - intros [= ->]. exists a. split; [by left|done].
  - intros H. destruct (IH H) as (x & Hx & Hfx). exists x. split; [by right|done].
Qed.

(** Over a range, the first hit has only misses below it. *)
Lemma first_some_seqZ {B : Type} (f : Z → option B) (n : nat) (lo : Z) (y : B) :
  first_some f (seqZ lo (Z.of_nat n)) = Some y →
  ∃ x, lo ≤ x < lo + Z.of_nat n ∧ f x = Some y ∧ ∀ x', lo ≤ x' < x → f x' = None.
Proof.
  revert lo. induction n as [|n IH]; intros lo.
  - rewrite seqZ_nil by lia. done.
  - rewrite seqZ_cons by lia. simpl. destruct (f lo) eqn:Hlo.
    + intros [= ->]. exists lo. split; [lia|]. split; [done|]. intros; lia.
    + replace (Z.pred (Z.of_nat (S n))) with (Z.of_nat n) by lia.
      intros H. destruct (IH _ H) as (x & Hx & Hfx & Hbelow).
      exists x. split; [lia|]. split; [done|].
      intros x' Hx'. destruct (decide (x' = lo)) as [->|]; [done|].
      apply Hbelow. lia.
Qed.

Lemma first_some_range {B : Type} (f : Z → option B) (lo hi : Z) (y : B) :
  first_some f (range lo hi) = Some y →
  ∃ x, lo ≤ x < hi ∧ f x = Some y ∧ ∀ x', lo ≤ x' < x → f x' = None.
Proof.
  unfold range. destruct (decide (hi - lo ≤ 0)) as [Hle|Hgt].
  - rewrite seqZ_nil by done. done.
  - replace (hi - lo) with (Z.of_nat (Z.to_nat (hi - lo))) by lia.
    intros H. apply first_some_seqZ in H as (x & Hx & Hfx & Hbelow).
    exists x. split; [lia|]. by split.
Qed.

(** A loop whose body only inspects the state computes [first_some]. *)
Lemma for_each_pure {A B : Type} (l : list A) (body : A → M (option B))
    (f : A → option B) (st : state) :
  (∀ x, x ∈ l → body x st = (Done (f x), st)) →
  for_each l body st = (Done (first_some f l), st).
Proof.
  induction l as [|a l IH]; intros Hbody; simpl; [done|].
  unfold bind. rewrite Hbody by left.
  destruct (f a); [done|]. apply IH. intros x Hx. apply Hbody. by right.
Qed.

(** ** Programs that do not write *)

Lemma read_only_ret {A : Type} (a : A) : read_only (ret a).
Proof. done. Qed.

Lemma read_only_bind {A B : Type} (m : M A) (k : A → M B) :
  read_only m → (∀ a, read_only (k a)) → read_only (bind m k).
Proof.
  intros Hm Hk st. unfold bind. specialize (Hm st).
  destruct (m st) as [[a| |] st']; simpl in Hm; subst st'; [apply Hk|done..].
Qed.

Lemma read_only_read (i j : Z) : read_only (read i j).
Proof.
  intros st. unfold read.
  destruct (py_getitem (cells st) i) as [row|]; [|done].
  by destruct (py_getitem row j).
Qed.

Lemma read_only_for_each {A B : Type} (l : list A) (body : A → M (option B)) :
  (∀ x, read_only (body x)) → read_only (for_each l body).
Proof.
  intros Hbody. induction l as [|a l IH]; simpl; [apply read_only_ret|].
  apply read_only_bind; [done|]. intros [y|]; [apply read_only_ret|done].
Qed.

Lemma read_only_if {A : Type} (c : bool) (m1 m2 : M A) :
  read_only m1 → read_only m2 → read_only (if c then m1 else m2).
Proof. by destruct c. Qed.

Lemma read_only_find_empty : read_only find_empty.
Proof.
  unfold find_empty.
  repeat first
    [ apply read_only_for_each; intros ?
    | apply read_only_bind; [|intros ?]
    | apply read_only_read
    | apply read_only_if
    | apply read_only_ret ].
Qed.

Lemma read_only_is_valid (row col : Z) (digit : string) :
  read_only (is_valid row col digit).
Proof.
  unfold is_valid.
  repeat first
    [ apply read_only_for_each; intros ?
    | apply read_only_bind; [|intros [?|]]
    | apply read_only_bind; [|intros ?]
    | apply read_only_read
    | apply read_only_if
    | apply read_only_ret ].
Qed.

(** ** [find_empty] *)

Lemma find_empty_run (st : state) :
  shape9 (cells st) → find_empty st = (Done (first_empty (cells st)), st).
Proof.
  intros Hb. unfold find_empty, first_empty.
  apply for_each_pure. intros i Hi. apply for_each_pure. intros j Hj.
  apply elem_of_range in Hi, Hj.
  unfold bind. rewrite read_run by done.
  by destruct (String.eqb _ _).
Qed.

Lemma first_empty_Some (b : board) (p : pos) :
  first_empty b = Some p →
  in_grid p ∧ cell b p = "" ∧ ∀ q, in_grid q → before q p → cell b q ≠ "".
Proof.
  unfold first_empty. intros H.
  apply first_some_range in H as (i & Hi & Hrow & Habove).
  apply first_some_range in Hrow as (j & Hj & Hhit & Hleft).
  destruct (String.eqb_spec (cell b (i, j)) "") as [Hij|]; [|done].
  injection Hhit as <-. split; [done|]. split; [done|].
  intros [i' j'] [Hi' Hj'] Hbefore. unfold before in Hbefore. cbn [fst snd] in *.
  destruct Hbefore as [Hlt|[-> Hlt]].
  - specialize (Habove i' ltac:(lia)). cbv beta in Habove.
    rewrite first_some_None in Habove.
    specialize (Habove j' ltac:(apply elem_of_range; lia)). simpl in Habove.
    by destruct (String.eqb_spec (cell b (i', j')) "").
  - specialize (Hleft j' ltac:(lia)). simpl in Hleft.
    by destruct (String.eqb_spec (cell b (i, j')) "").
Qed.

Lemma first_empty_None (b : board) :
  first_empty b = None ↔ full b.
Proof.
  unfold first_empty, full. rewrite first_some_None, Forall_forall. split.
  - intros H [i j] Hp. apply elem_of_grid in Hp as [Hi Hj]. cbn [fst snd] in *.
    specialize (H i ltac:(apply elem_of_range; lia)). cbv beta in H.
    rewrite first_some_None in H.
    specialize (H j ltac:(apply elem_of_range; lia)). simpl in H.
    by destruct (String.eqb_spec (cell b (i, j)) "").
  - intros H i Hi. apply first_some_None. intros j Hj.
    apply elem_of_range in Hi, Hj.
    destruct (String.eqb_spec (cell b (i, j)) "") as [Hij|]; [|done].
    exfalso. apply (H (i, j)); [|done]. by apply elem_of_grid.
Qed.

(** ** [is_valid] *)

Lemma is_valid_run (st : state) (p : pos) (d : string) :
  shape9 (cells st) → in_grid p →
  ∃ v, is_valid p.1 p.2 d st = (Done v, st)
       ∧ (v = true ↔ ∀ q, scanned p q → cell (cells st) q ≠ d).
Proof.
  intros Hb Hp. destruct p as [r c]. pose proof Hp as [Hr Hc].
  cbn [fst snd] in *. set (b := cells st).
  unfold is_valid, bind at 1.
  rewrite (for_each_pure _ _ (λ i,
    if String.eqb (cell b (r, i)) d then Some false
    else if String.eqb (cell b (i, c)) d then Some false else None)).
  2:{ intros i Hi. apply elem_of_range in Hi. unfold bind.
      rewrite read_run by done. fold b.
      destruct (String.eqb _ d); [done|].
      rewrite read_run by done. fold b. by destruct (String.eqb _ d). }
  destruct (first_some _ (range 0 9)) as [v|] eqn:Hrc.
  { apply first_some_elem in Hrc as (i & Hi & Hhit).
    apply elem_of_range in Hi. exists v. split; [done|].
    destruct (String.eqb_spec (cell b (r, i)) d) as [Hd|_].
    - injection Hhit as <-. split; [done|]. intros H. exfalso.
      apply (H (r, i)); [|done]. split; [done|]. by left.
    - destruct (String.eqb_spec (cell b (i, c)) d) as [Hd|_]; [|done].
      injection Hhit as <-. split; [done|]. intros H. exfalso.
      apply (H (i, c)); [|done]. split; [done|]. right. by left. }
  rewrite first_some_None in Hrc.
  assert (Hbox : ∀ i j, r / 3 * 3 ≤ i < r / 3 * 3 + 3 →
                        c / 3 * 3 ≤ j < c / 3 * 3 + 3 → in_grid (i, j)).
  { intros i j Hi Hj. unfold in_grid. simpl. Z.div_mod_to_equations. lia. }
  unfold bind.
  rewrite (for_each_pure _ _ (λ i,
    first_some (λ j, if String.eqb (cell b (i, j)) d then Some false else None)
      (range (c / 3 * 3) (c / 3 * 3 + 3)))).
  2:{ intros i Hi. apply for_each_pure. intros j Hj.
      apply elem_of_range in Hi, Hj. unfold bind.
      rewrite read_run by auto. fold b. by destruct (String.eqb _ d). }
  destruct (first_some _ (range (r / 3 * 3) _)) as [v|] eqn:Hbx.
  { apply first_some_elem in Hbx as (i & Hi & Hrow).
    apply first_some_elem in Hrow as (j & Hj & Hhit).
    apply elem_of_range in Hi, Hj. exists v. split; [done|].
    destruct (String.eqb_spec (cell b (i, j)) d) as [Hd|_]; [|done].
    injection Hhit as <-. split; [done|]. intros H. exfalso.
    apply (H (i, j)); [|done]. split; [auto|]. right. right. done. }
  rewrite first_some_None in Hbx.
  exists true. split; [done|]. split; [|done]. intros _ [i j] [Hq Hscan].
  destruct Hq as [Hi Hj]. cbn [fst snd] in *.
  destruct Hscan as [->|[->|[Hi' Hj']]].
  - specialize (Hrc j ltac:(apply elem_of_range; lia)). simpl in Hrc.
    by destruct (String.eqb_spec (cell b (r, j)) d).
  - specialize (Hrc i ltac:(apply elem_of_range; lia)). simpl in Hrc.
    destruct (String.eqb_spec (cell b (r, i)) d); [done|].
    by destruct (String.eqb_spec (cell b (i, c)) d).
  - specialize (Hbx i ltac:(apply elem_of_range; lia)). cbv beta in Hbx.
    rewrite first_some_None in Hbx.
    specialize (Hbx j ltac:(apply elem_of_range; lia)). simpl in Hbx.
    by destruct (String.eqb_spec (cell b (i, j)) d).
Qed.

(** ** Writing a cell *)

Lemma write_run (st : state) (p : pos) (v : string) :
  shape9 (cells st) → in_grid p →
  write p.1 p.2 v st =
    (Done tt, State (upd (cells st) p v)
                (WriteEvent p.1 p.2 v (upd (cells st) p v) :: history st)).
Proof. intros Hb Hp. unfold write. by rewrite assign_run. Qed.

(** ** Counting the empty cells *)

Lemma filter_length_insert {A : Type} (P : A → Prop) `{!∀ x, Decision (P x)}
    (l : list A) (i : nat) (x y : A) :
  l !! i = Some x → P x → ¬ P y →
  S (length (filter P (<[i:=y]> l))) = length (filter P l).
Proof.
  intros Hi Hx Hy. revert i Hi.
  induction l as [|a l IH]; intros [|i] Hi; simplify_eq/=.
  - by rewrite filter_cons_False, filter_cons_True.
  - rewrite !filter_cons. destruct (decide (P a)); simpl; by rewrite IH.
Qed.

Lemma filter_length_concat_alter {A : Type} (P : A → Prop) `{!∀ x, Decision (P x)}
    (f : list A → list A) (ll : list (list A)) (k : nat) (row : list A) :
  ll !! k = Some row →
  (length (filter P (concat (alter f k ll))) + length (filter P row) =
   length (filter P (concat ll)) + length (filter P (f row)))%nat.
Proof.
  revert k. induction ll as [|r ll IH]; intros [|k] Hk; simplify_eq/=.
  - rewrite !filter_app, !length_app. lia.
  - rewrite !filter_app, !length_app. specialize (IH _ Hk). lia.
Qed.

(** A digit written into an empty cell leaves one empty cell less. *)
Lemma count_empty_upd (b : board) (p : pos) (v : string) :
  shape9 b → in_grid p → cell b p = "" → v ≠ "" →
  S (count_empty (upd b p v)) = count_empty b.
Proof.
  intros Hb Hp Hnil Hv.
  destruct (shape9_lookup _ _ Hb Hp) as (row & Hrow & _ & Hcell).
  rewrite Hnil in Hcell. unfold count_empty, upd.
  pose proof (filter_length_concat_alter (λ v : string, v = "")
    (λ row, <[Z.to_nat p.2:=v]> row) b _ _ Hrow) as Hsum.
  pose proof (filter_length_insert (λ v : string, v = "") row _ _ v Hcell
    eq_refl Hv) as Hins.
  lia.
Qed.

Lemma count_empty_le (b : board) : shape9 b → (count_empty b ≤ 81)%nat.
Proof.
  intros [Hlen Hrows]. unfold count_empty.
  etrans; [apply length_filter|].
  do 10 (destruct b as [|? b]; [try done|]); [|done].
  repeat match goal with H : Forall _ (_ :: _) |- _ => inv H end.
  simpl. rewrite !length_app. simpl. lia.
Qed.

(** ** The specification predicates, unfolded *)

Lemma consistent_spec (b : board) :
  consistent b ↔
  ∀ p q, in_grid p → in_grid q → p ≠ q → same_unit p q →
         cell b p ≠ "" → cell b q ≠ cell b p.
Proof.
  unfold consistent. rewrite Forall_forall. setoid_rewrite Forall_forall.
  setoid_rewrite elem_of_grid. naive_solver.
Qed.

Lemma extends_spec (b b' : board) :
  extends b b' ↔ ∀ p, in_grid p → cell b p ≠ "" → cell b' p = cell b p.
Proof. unfold extends. rewrite Forall_forall. by setoid_rewrite elem_of_grid. Qed.

Lemma full_spec (b : board) : full b ↔ ∀ p, in_grid p → cell b p ≠ "".
Proof. unfold full. rewrite Forall_forall. by setoid_rewrite elem_of_grid. Qed.

Lemma digit_cells_spec (b : board) :
  digit_cells b ↔ ∀ p, in_grid p → cell b p ∈ "" :: digits.
Proof. unfold digit_cells. rewrite Forall_forall. by setoid_rewrite elem_of_grid. Qed.

Lemma same_unit_sym (p q : pos) : same_unit p q → same_unit q p.
Proof. unfold same_unit. intros [H|[H|[H1 H2]]]; auto. Qed.

Lemma scanned_same_unit (p q : pos) :
  in_grid p → scanned p q ↔ in_grid q ∧ same_unit p q.
Proof.
  unfold scanned, same_unit, in_grid. intros Hp. split.
  - intros [Hq [H|[H|H]]]; (split; [done|]); [by left|right; by left|].
    right. right. Z.div_mod_to_equations. lia.
  - intros [Hq [H|[H|H]]]; (split; [done|]); [by left|right; by left|].
    right. right. Z.div_mod_to_equations. lia.
Qed.

Lemma digit_nonempty (d : string) : d ∈ digits → d ≠ "".
Proof. intros Hd ->. by repeat (apply elem_of_cons in Hd as [?|Hd]; [done|]); inv Hd. Qed.

(** ** What the search finds *)

Lemma fills_full (b : board) : shape9 b → full b → fills b b.
Proof.
  intros Hb Hfull. rewrite full_spec in Hfull. split; [done|].
  intros p Hp. split; [done|]. intros Hnil. by destruct (Hfull p Hp).
Qed.

Lemma fills_is_full (b s : board) : fills b s → full s.
Proof.
  intros [_ H]. apply full_spec. intros p Hp. destruct (H p Hp) as [Hkeep Hnew].
  destruct (decide (cell b p = "")) as [Hnil|Hne].
  - apply digit_nonempty. by apply Hnew.
  - by rewrite Hkeep.
Qed.

Section step.
Context (b : board) (p : pos) (d : string).
Hypothesis Hb : shape9 b.
Hypothesis Hp : in_grid p.
Hypothesis Hnil : cell b p = "".
Hypothesis Hd : d ∈ digits.

Lemma consistent_upd :
  (∀ q, scanned p q → cell b q ≠ d) → consistent b → consistent (upd b p d).
Proof using Hb Hp Hnil Hd.
  intros Hvalid. rewrite !consistent_spec. intros Hcons p1 p2 H1 H2 Hne Hunit.
  rewrite !cell_upd by done.
  destruct (decide (p = p1)) as [<-|Hp1]; destruct (decide (p = p2)) as [<-|Hp2].
  - done.
  - intros _. apply Hvalid. by apply scanned_same_unit.
  - intros _ Heq. apply (Hvalid p1); [|done].
    apply scanned_same_unit; [done|]. split; [done|]. by apply same_unit_sym.
  - by apply Hcons.
Qed.

Lemma fills_step (s : board) :
  (∀ q, scanned p q → cell b q ≠ d) → fills (upd b p d) s → fills b s.
Proof using Hb Hp Hnil Hd.
  intros Hvalid [Hs H]. split; [done|]. intros q Hq.
  destruct (H q Hq) as [Hkeep Hnew]. rewrite cell_upd in Hkeep, Hnew by done.
  destruct (decide (p = q)) as [<-|Hpq].
  - split; [done|]. intros _. pose proof (digit_nonempty _ Hd) as Hd'.
    rewrite Hkeep by done. split; [done|].
    intros q Hq' Hne Hunit.
    destruct (H q Hq') as [Hkeep' Hnew']. rewrite cell_upd_ne in Hkeep', Hnew' by done.
    destruct (decide (cell b q = "")) as [Hqnil|Hqne].
    + destruct (Hnew' Hqnil) as [_ Hdiff].
      intros Heq. apply (Hdiff p Hp); [done|by apply same_unit_sym|].
      by rewrite Heq, (Hkeep Hd').
    + rewrite Hkeep' by done. apply Hvalid. by apply scanned_same_unit.
  - done.
Qed.

Lemma fills_restrict (s : board) :
  fills b s → cell s p = d → fills (upd b p d) s.
Proof using Hb Hp Hnil Hd.
  intros [Hs H] Hsp. split; [done|]. intros q Hq.
  destruct (H q Hq) as [Hkeep Hnew]. rewrite cell_upd by done.
  destruct (decide (p = q)) as [<-|Hpq]; [|done].
  split; [done|]. intros ->. by destruct (digit_nonempty _ Hd).
Qed.

Lemma valid_of_fills (s : board) :
  fills b s → cell s p = d → ∀ q, scanned p q → cell b q ≠ d.
Proof using Hb Hp Hnil Hd.
  intros [Hs H] Hsp q Hscan Hq.
  apply scanned_same_unit in Hscan as [Hq' Hunit]; [|done].
  pose proof (digit_nonempty _ Hd) as Hd'.
  destruct (decide (q = p)) as [->|Hne]; [congruence|].
  destruct (H p Hp) as [_ Hnew]. destruct (Hnew Hnil) as [_ Hdiff].
  apply (Hdiff q Hq'); [done..|].
  destruct (H q Hq') as [Hkeep _]. rewrite Hkeep by congruence. congruence.
Qed.

Lemma event_ok_first (b1 : board) :
  b1 = upd b p d → (∀ q, scanned p q → cell b q ≠ d) →
  event_ok b (WriteEvent p.1 p.2 d b1).
Proof using Hb Hp Hnil Hd.
  intros -> Hvalid. unfold event_ok. simpl. rewrite <- surjective_pairing.
  split_and!; [done|done|by right|by apply shape9_upd| |by apply consistent_upd].
  apply extends_spec. intros q Hq Hne. apply cell_upd_ne; [done..|congruence].
Qed.

Lemma event_ok_undo : event_ok b (WriteEvent p.1 p.2 "" b).
Proof using Hb Hp Hnil.
  unfold event_ok. simpl. rewrite <- surjective_pairing.
  split_and!; [done|done|by left|done| |done].
  by apply extends_spec.
Qed.

Lemma event_ok_weaken (e : write_event) :
  (∀ q, scanned p q → cell b q ≠ d) →
  event_ok (upd b p d) e → event_ok b e.
Proof using Hb Hp Hnil Hd.
  intros Hvalid (Hg & Hcell & Hval & Hshape & Hext & Hcons).
  rewrite cell_upd in Hcell by done.
  destruct (decide (p = (w_row e, w_col e))) as [Heq|Hne].
  { by destruct (digit_nonempty _ Hd). }
  split_and!; [done..| |].
  - rewrite extends_spec in Hext |- *. intros q Hq Hqne.
    assert (p ≠ q) by congruence.
    rewrite <- (cell_upd_ne b p q d) by done. apply Hext; [done|].
    by rewrite cell_upd_ne.
  - intros Hc. apply Hcons. by apply consistent_upd.
Qed.
End step.

(** ** The loop over the digits *)

Lemma solve_body_unfold (self_solve : M bool) (st : state) :
  solve_body self_solve st =
  match find_empty st with
  | (Done None, st') => (Done true, st')
  | (Done (Some (row, col)), st') =>
      match for_each digits (try_digit self_solve row col) st' with
      | (Done (Some v), st'') => (Done v, st'')
      | (Done None, st'') => (Done false, st'')
      | (IndexError, st'') => (IndexError, st'')
      | (OutOfFuel, st'') => (OutOfFuel, st'')
      end
  | (IndexError, st') => (IndexError, st')
  | (OutOfFuel, st') => (OutOfFuel, st')
  end.
Proof.
  unfold solve_body, bind. destruct (find_empty st) as [[[[row col]|]| |] st']; try done.
  fold (try_digit self_solve row col).
  by destruct (for_each digits _ st') as [[[v|]| |] st''].
Qed.

Lemma for_each_cons_run {A B : Type} (x : A) (l : list A)
    (body : A → M (option B)) (st : state) :
  for_each (x :: l) body st =
  match body x st with
  | (Done (Some y), st') => (Done (Some y), st')
  | (Done None, st') => for_each l body st'
  | (IndexError, st') => (IndexError, st')
  | (OutOfFuel, st') => (OutOfFuel, st')
  end.
Proof. simpl. unfold bind. by destruct (body x st) as [[[y|]| |] st']. Qed.

Lemma try_digit_invalid (self_solve : M bool) (row col : Z) (d : string) (st : state) :
  is_valid row col d st = (Done false, st) →
  try_digit self_solve row col d st = (Done None, st).
Proof. intros Hv. unfold try_digit, bind. by rewrite Hv. Qed.

Lemma try_digit_valid (self_solve : M bool) (p : pos) (d : string) (st : state) :
  shape9 (cells st) → in_grid p →
  is_valid p.1 p.2 d st = (Done true, st) →
  let b1 := upd (cells st) p d in
  try_digit self_solve p.1 p.2 d st =
  match self_solve (State b1 (WriteEvent p.1 p.2 d b1 :: history st)) with
  | (Done true, st2) => (Done (Some true), st2)
  | (Done false, st2) =>
      match write p.1 p.2 "" st2 with
      | (Done _, st3) => (Done None, st3)
      | (IndexError, st3) => (IndexError, st3)
      | (OutOfFuel, st3) => (OutOfFuel, st3)
      end
  | (IndexError, st2) => (IndexError, st2)
  | (OutOfFuel, st2) => (OutOfFuel, st2)
  end.
Proof.
  intros Hb Hp Hv b1. unfold try_digit, bind. rewrite Hv, write_run by done.
  fold b1. by destruct (self_solve _) as [[[|]| |] st2].
Qed.

Lemma digits_loop (b : board) (p : pos) (self_solve self_solve' : M bool) :
  shape9 b → in_grid p → cell b p = "" →
  smaller_calls_ok b self_solve self_solve' →
  ∀ ds h, (∀ d, d ∈ ds → d ∈ digits) →
    loop_post b p ds h (for_each ds (try_digit self_solve p.1 p.2) (State b h)) ∧
    for_each ds (try_digit self_solve' p.1 p.2) (State b h) =
    for_each ds (try_digit self_solve p.1 p.2) (State b h).
Proof.
  intros Hb Hp Hnil Hrec ds. induction ds as [|d ds IH]; intros h Hds.
  { split; [|done]. exists None, b, []. split_and!; try done.
    intros s _ Hin. by apply elem_of_nil in Hin. }
  assert (Hd : d ∈ digits) by (apply Hds; by left).
  assert (Hds' : ∀ d', d' ∈ ds → d' ∈ digits) by (intros d' Hd'; apply Hds; by right).
  rewrite !for_each_cons_run.
  destruct (is_valid_run (State b h) p d Hb Hp) as (v & Hv & Hiff).
  cbn [cells] in Hiff. destruct v.
  - (* the digit may be placed *)
    assert (Hvalid : ∀ q, scanned p q → cell b q ≠ d) by by apply Hiff.
    rewrite !try_digit_valid by done. cbn [cells history].
    set (b1 := upd b p d). set (e1 := WriteEvent p.1 p.2 d b1).
    assert (Hb1 : shape9 b1) by by apply shape9_upd.
    destruct (Hrec (State b1 (e1 :: h))) as [(r1 & b2 & tr1 & Hout & Hb2 & Htr1 & Hr1) ->].
    { done. }
    { cbn [cells]. pose proof (count_empty_upd b p d Hb Hp Hnil (digit_nonempty _ Hd)).
      fold b1 in H. lia. }
    cbn [cells history] in *. rewrite Hout.
    assert (Htr1' : Forall (event_ok b) (tr1 ++ [e1])).
    { apply Forall_app. split.
      - eapply Forall_impl; [exact Htr1|]. intros e. by apply event_ok_weaken.
      - apply Forall_singleton. by apply event_ok_first. }
    destruct r1.
    + split; [|done]. exists (Some true), b2, (tr1 ++ [e1])%list.
      split_and!; [by rewrite <- app_assoc|done|done|].
      by apply (fills_step b p d).
    + destruct Hr1 as [-> Hnone].
      rewrite (write_run (State b1 _) p "") by done. cbn [cells history].
      replace (upd b1 p "") with b.
      2:{ subst b1. rewrite <- Hnil. by rewrite upd_restore. }
      set (e2 := WriteEvent p.1 p.2 "" b).
      destruct (IH (e2 :: tr1 ++ e1 :: h) Hds') as [(r & b' & tr & Hout' & Hb' & Htr & Hr) Heq].
      split; [|done]. rewrite Hout'.
      exists r, b', (tr ++ e2 :: tr1 ++ [e1])%list.
      split_and!; [|done| |].
      * f_equal. f_equal. rewrite <- !app_assoc. simpl. by rewrite <- app_assoc.
      * apply Forall_app. split; [done|]. apply Forall_cons. split; [|done].
        by apply event_ok_undo.
      * destruct r as [[|]|]; [done..|]. destruct Hr as [-> Hnot].
        split; [done|]. intros s Hs Hin. apply elem_of_cons in Hin as [Heq'|Hin].
        -- apply (Hnone s). by apply fills_restrict.
        -- by apply (Hnot s).
  - (* the digit is rejected *)
    rewrite !try_digit_invalid by done.
    destruct (IH h Hds') as [(r & b' & tr & Hout' & Hb' & Htr & Hr) Heq].
    split; [|done]. rewrite Hout'. exists r, b', tr. split_and!; [done..|].
    destruct r as [[|]|]; [done..|]. destruct Hr as [-> Hnot].
    split; [done|]. intros s Hs Hin. apply elem_of_cons in Hin as [Heq'|Hin].
    + assert (true = false); [|done]. symmetry. apply Hiff.
      by apply (valid_of_fills b p d Hb Hp Hnil Hd s).
    + by apply (Hnot s).
Qed.

(** ** [solve_sudoku] *)

Lemma solve_body_spec (self_solve self_solve' : M bool) (st : state) :
  shape9 (cells st) →
  smaller_calls_ok (cells st) self_solve self_solve' →
  solve_post st (solve_body self_solve st) ∧
  solve_body self_solve' st = solve_body self_solve st.
Proof.
  intros Hb Hrec. rewrite !solve_body_unfold, find_empty_run by done.
  destruct (first_empty (cells st)) as [[row col]|] eqn:Hfe.
  - apply first_empty_Some in Hfe as (Hp & Hnil & _).
    destruct st as [b h]. cbn [cells history] in *.
    destruct (digits_loop b (row, col) _ _ Hb Hp Hnil Hrec digits h)
      as [(r & b' & tr & Hout & Hb' & Htr & Hr) Heq]; [done|].
    cbn [fst snd] in *. rewrite Heq, Hout. split; [|done].
    destruct r as [[|]|]; [by exists true, b', tr|done|].
    destruct Hr as [-> Hnot]. exists false, b, tr. split_and!; try done.
    intros s Hs. apply (Hnot s Hs). destruct Hs as [_ Hs].
    by apply (Hs (row, col) Hp).
  - apply first_empty_None in Hfe. split; [|done].
    exists true, (cells st), []. destruct st as [b h]. cbn [cells history] in *.
    split_and!; try done. by apply fills_full.
Qed.

Lemma solve_sudoku_spec (n : nat) (st : state) :
  shape9 (cells st) → (count_empty (cells st) ≤ n)%nat →
  solve_post st (solve_sudoku n st).
Proof.
  revert st. induction n as [|n IH]; intros st Hb Hn.
  - apply (solve_body_spec out_of_fuel out_of_fuel st Hb).
    intros st1 _ Hlt. lia.
  - apply (solve_body_spec (solve_sudoku n) (solve_sudoku n) st Hb).
    intros st1 Hb1 Hlt. split; [|done]. apply IH; [done|lia].
Qed.

Lemma solve_sudoku_descending_eq (n : nat) (st : state) :
  shape9 (cells st) → (count_empty (cells st) ≤ n)%nat →
  solve_sudoku_descending n st = solve_sudoku n st.
Proof.
  revert st. induction n as [|n IH]; intros st Hb Hn.
  - apply (solve_body_spec out_of_fuel _ st Hb). intros st1 _ Hlt. lia.
  - apply (solve_body_spec (solve_sudoku n) _ st Hb).
    intros st1 Hb1 Hlt. split; [apply solve_sudoku_spec; [done|lia]|].
    unfold descending. rewrite decide_True by done. apply IH; [done|lia].
Qed.

(** More budget than needed does not change the run. *)
Lemma solve_sudoku_more_fuel (n m : nat) (st : state) :
  shape9 (cells st) → (count_empty (cells st) ≤ n)%nat → (n ≤ m)%nat →
  solve_sudoku m st = solve_sudoku n st.
Proof.
  revert m st. induction n as [|n IH]; intros m st Hb Hn Hm.
  - destruct m as [|m]; [done|].
    apply (solve_body_spec out_of_fuel _ st Hb). intros st1 _ Hlt. lia.
  - destruct m as [|m]; [lia|].
    apply (solve_body_spec (solve_sudoku n) _ st Hb).
    intros st1 Hb1 Hlt. split; [apply solve_sudoku_spec; [done|lia]|].
    apply IH; [done|lia..].
Qed.

(** ** Rows, columns and boxes *)

(** Each of the 27 units has nine distinct cells of the grid, any two of
    them in a common row, column or box. *)
Lemma units_facts :
  Forall (λ u,
    length u = 9%nat ∧ NoDup u ∧
    Forall (λ p, in_grid p ∧ Forall (λ q, same_unit p q) u) u) units.
Proof. by_evaluation. Qed.

(** Two cells that share a row, a column or a box lie in one of the units. *)
Lemma units_cover :
  Forall (λ p, Forall (λ q,
    same_unit p q → Exists (λ u, p ∈ u ∧ q ∈ u) units) grid) grid.
Proof. by_evaluation. Qed.

Lemma digits_facts :
  NoDup digits ∧ length digits = 9%nat ∧
  Forall (λ d, length (filter (λ x, x = d) digits) = 1%nat) digits.
Proof. by_evaluation. Qed.

Lemma filter_length_one {A : Type} (P : A → Prop) `{!∀ x, Decision (P x)}
    (l : list A) (x : A) :
  NoDup l → x ∈ l → P x → (∀ y, y ∈ l → P y → y = x) →
  length (filter P l) = 1%nat.
Proof.
  induction 1 as [|a l Ha Hl IH]; intros Hx HPx Huniq.
  { by apply elem_of_nil in Hx. }
  apply elem_of_cons in Hx as [->|Hx].
  - rewrite filter_cons_True by done. simpl. f_equal.
    destruct (filter P l) as [|y k] eqn:Hf; [done|]. exfalso.
    assert (Hy : y ∈ filter P l) by (rewrite Hf; by left).
    apply list_elem_of_filter in Hy as [HPy Hy].
    apply Ha. rewrite <- (Huniq y); [done|by right|done].
  - rewrite filter_cons_False.
    + apply IH; [done..|]. intros y Hy. apply Huniq. by right.
    + intros HPa. apply Ha. rewrite (Huniq a); [done|by left|done].
Qed.

Lemma filter_length_pos {A : Type} (P : A → Prop) `{!∀ x, Decision (P x)}
    (l : list A) :
  length (filter P l) = 1%nat → ∃ x, x ∈ l ∧ P x.
Proof.
  destruct (filter P l) as [|x k] eqn:Hf; [done|]. intros _.
  assert (Hx : x ∈ filter P l) by (rewrite Hf; by left).
  apply list_elem_of_filter in Hx as [HPx Hx]. by exists x.
Qed.

(** As many distinct values as there are cells: the cells hold exactly these
    values. *)
Lemma cover_Permutation {A : Type} (k l : list A) :
  NoDup k → (∀ x, x ∈ k → x ∈ l) → (length l ≤ length k)%nat → k ≡ₚ l.
Proof.
  intros Hk Hincl Hlen. apply submseteq_length_Permutation; [|done].
  by apply NoDup_submseteq.
Qed.

Lemma NoDup_fmap_inj_on {A B : Type} (f : A → B) (l : list A) (x y : A) :
  NoDup (f <$> l) → x ∈ l → y ∈ l → f x = f y → x = y.
Proof.
  induction l as [|a l IH]; intros Hnd Hx Hy Hxy.
  { by apply elem_of_nil in Hx. }
  rewrite fmap_cons in Hnd. apply NoDup_cons in Hnd as [Ha Hnd].
  apply elem_of_cons in Hx as [->|Hx]; apply elem_of_cons in Hy as [->|Hy].
  - done.
  - destruct Ha. rewrite Hxy. by apply list_elem_of_fmap_2.
  - destruct Ha. rewrite <- Hxy. by apply list_elem_of_fmap_2.
  - by apply IH.
Qed.

Lemma unit_of (p q : pos) :
  in_grid p → in_grid q → same_unit p q →
  ∃ u, u ∈ units ∧ p ∈ u ∧ q ∈ u.
Proof.
  intros Hp Hq Hpq. pose proof units_cover as Hc.
  rewrite Forall_forall in Hc. apply elem_of_grid in Hp, Hq.
  specialize (Hc p Hp). rewrite Forall_forall in Hc.
  specialize (Hc q Hq Hpq). apply Exists_exists in Hc as (u & Hu & Hpu & Hqu).
  by exists u.
Qed.

Lemma unit_cells (u : list pos) :
  u ∈ units →
  length u = 9%nat ∧ NoDup u ∧
  ∀ p, p ∈ u → in_grid p ∧ ∀ q, q ∈ u → same_unit p q.
Proof.
  intros Hu. pose proof units_facts as Hf. rewrite Forall_forall in Hf.
  destruct (Hf u Hu) as (Hlen & Hnd & Hcells). split; [done|]. split; [done|].
  rewrite Forall_forall in Hcells. intros p Hp.
  destruct (Hcells p Hp) as [Hg Hsame]. split; [done|].
  by rewrite Forall_forall in Hsame.
Qed.

(** The values of the cells of a unit of a solved board are the digits. *)
Lemma solved_unit (s : board) (u : list pos) :
  solved s → u ∈ units → digits ≡ₚ cell s <$> u.
Proof.
  intros Hs Hu. destruct digits_facts as (Hnd & Hlen & _).
  destruct (unit_cells u Hu) as (Hulen & _).
  apply cover_Permutation; [done| |by rewrite length_fmap, Hulen, Hlen].
  intros d Hd. unfold solved in Hs. rewrite Forall_forall in Hs.
  specialize (Hs u Hu). rewrite Forall_forall in Hs.
  destruct (filter_length_pos _ _ (Hs d Hd)) as (p & Hp & <-).
  by apply list_elem_of_fmap_2.
Qed.

Lemma solved_digit (s : board) (p : pos) :
  solved s → in_grid p → cell s p ∈ digits.
Proof.
  intros Hs Hp.
  destruct (unit_of p p Hp Hp) as (u & Hu & Hpu & _); [by left|].
  rewrite (solved_unit s u Hs Hu). by apply list_elem_of_fmap_2.
Qed.

Lemma solved_distinct (s : board) (p q : pos) :
  solved s → in_grid p → in_grid q → p ≠ q → same_unit p q →
  cell s q ≠ cell s p.
Proof.
  intros Hs Hp Hq Hne Hpq Heq.
  destruct (unit_of p q Hp Hq Hpq) as (u & Hu & Hpu & Hqu).
  destruct digits_facts as (Hnd & _).
  rewrite (solved_unit s u Hs Hu) in Hnd.
  apply Hne. symmetry. by apply (NoDup_fmap_inj_on (cell s) u q p).
Qed.

(** A board of digits without a duplicate in any unit is solved. *)
Lemma distinct_solved (s : board) :
  (∀ p, in_grid p → cell s p ∈ digits) →
  (∀ p q, in_grid p → in_grid q → p ≠ q → same_unit p q → cell s q ≠ cell s p) →
  solved s.
Proof.
  intros Hdig Hdiff. unfold solved. apply Forall_forall. intros u Hu.
  apply Forall_forall. intros d Hd.
  destruct (unit_cells u Hu) as (Hulen & Hund & Hucells).
  destruct digits_facts as (Hnd & Hlen & _).
  assert (Hinj : ∀ x y, x ∈ u → y ∈ u → cell s x = cell s y → x = y).
  { intros x y Hx Hy Hxy. destruct (decide (x = y)) as [|Hne]; [done|].
    destruct (Hucells x Hx) as [Hgx Hsame]. destruct (Hucells y Hy) as [Hgy _].
    by destruct (Hdiff x y Hgx Hgy Hne (Hsame y Hy)). }
  assert (Hperm : cell s <$> u ≡ₚ digits).
  { apply cover_Permutation.
    - by apply NoDup_fmap_2_strong.
    - intros v Hv. apply list_elem_of_fmap in Hv as (x & -> & Hx).
      apply Hdig. by apply Hucells.
    - by rewrite length_fmap, Hulen, Hlen. }
  rewrite <- Hperm in Hd. apply list_elem_of_fmap in Hd as (p & -> & Hp).
  apply (filter_length_one _ u p); [done..|].
  intros y Hy Hyp. by apply Hinj.
Qed.

(** ** Completions *)

Lemma completion_fills (b s : board) : completion b s → fills b s.
Proof.
  intros (Hshape & Hs & Hext). rewrite extends_spec in Hext.
  split; [done|]. intros p Hp. split; [by apply Hext|]. intros _.
  split; [by apply solved_digit|]. intros q Hq Hne Hpq.
  by apply solved_distinct.
Qed.

Lemma completion_digit_cells (b s : board) : completion b s → digit_cells b.
Proof.
  intros (_ & Hs & Hext). rewrite extends_spec in Hext.
  apply digit_cells_spec. intros p Hp.
  destruct (decide (cell b p = "")) as [->|Hne]; [by left|].
  right. rewrite <- Hext by done. by apply solved_digit.
Qed.

Lemma completion_consistent (b s : board) : completion b s → consistent b.
Proof.
  intros (_ & Hs & Hext). rewrite extends_spec in Hext.
  apply consistent_spec. intros p q Hp Hq Hne Hpq Hfilled Heq.
  apply (solved_distinct s p q Hs Hp Hq Hne Hpq).
  rewrite !Hext; [done..|congruence].
Qed.

Lemma fills_extends (b s : board) : fills b s → extends b s.
Proof.
  intros [_ H]. apply extends_spec. intros p Hp. by apply (H p Hp).
Qed.

(** On a consistent board of digits, what the search builds is a valid
    completion. *)
Lemma fills_completion (b s : board) :
  consistent b → digit_cells b → fills b s → completion b s.
Proof.
  intros Hcons Hdig Hfills. pose proof Hfills as [Hshape H].
  split; [done|]. split; [|by apply fills_extends].
  rewrite consistent_spec in Hcons. rewrite digit_cells_spec in Hdig.
  apply distinct_solved.
  - intros p Hp. destruct (H p Hp) as [Hkeep Hnew].
    destruct (decide (cell b p = "")) as [Hnil|Hne]; [by apply Hnew|].
    rewrite Hkeep by done.
    specialize (Hdig p Hp). by apply elem_of_cons in Hdig as [?|?].
  - intros p q Hp Hq Hne Hpq.
    destruct (H p Hp) as [Hkeep Hnew]. destruct (H q Hq) as [Hkeep' Hnew'].
    destruct (decide (cell b p = "")) as [Hnil|Hfilled].
    { by apply Hnew. }
    destruct (decide (cell b q = "")) as [Hnil'|Hfilled'].
    { intros Heq. destruct (Hnew' Hnil') as [_ Hdiff].
      apply (Hdiff p Hp); [done|by apply same_unit_sym|done]. }
    rewrite Hkeep, Hkeep' by done. by apply Hcons.
Qed.

Example classic_solved :
  (let (r, st) := solve_sudoku 81 (State classic []) in (r, cells st))
  = (Done true, classic_solution).
Proof. vm_compute. reflexivity. Qed.

Example dead_end_fails :
  (let (r, st) := solve_sudoku 81 (State dead_end []) in (r, cells st))
  = (Done false, dead_end).
Proof. vm_compute. reflexivity. Qed.

(** * The properties of the solver *)

(** Every terminating run on a 9x9 board, with enough recursion budget. *)
Lemma solve_sudoku_run (st : state) (n : nat) :
  shape9 (cells st) → (81 ≤ n)%nat → solve_post st (solve_sudoku n st).
Proof.
  intros Hb Hn. apply solve_sudoku_spec; [done|].
  pose proof (count_empty_le _ Hb). lia.
Qed.

(** C1.  On a 9x9 board that has a valid completion (its given digits are
    then mutually consistent, see [completion_consistent]), [solve_sudoku]
    returns [True], and the board it leaves has each digit exactly once in
    every row, column and box, with the given digits still in place. *)
Theorem solve_sudoku_solves (st : state) (s : board) (n : nat) :
  shape9 (cells st) → completion (cells st) s → (81 ≤ n)%nat →
  ∃ st', solve_sudoku n st = (Done true, st') ∧
         shape9 (cells st') ∧ solved (cells st') ∧
         extends (cells st) (cells st').
Proof.
  intros Hb Hs Hn.
  destruct (solve_sudoku_run st n Hb Hn) as (r & b' & tr & Hout & Hb' & _ & Hr).
  destruct r.
  - exists (State b' (tr ++ history st)). split; [done|]. cbn [cells].
    by apply (fills_completion (cells st));
      [eapply completion_consistent|eapply completion_digit_cells|].
  - destruct Hr as [_ Hnone]. destruct (Hnone s). by apply completion_fills.
Qed.

Lemma solve_sudoku_solves_witness :
  shape9 classic ∧ completion classic classic_solution ∧
  ∃ st', solve_sudoku 81 (State classic []) = (Done true, st') ∧
         shape9 (cells st') ∧ solved (cells st') ∧ extends classic (cells st').
Proof.
  assert (H1 : shape9 classic) by by_evaluation.
  assert (H2 : completion classic classic_solution) by by_evaluation.
  split; [exact H1|]. split; [exact H2|].
  apply (solve_sudoku_solves (State classic []) classic_solution 81);
    [exact H1|exact H2|lia].
Defined.

(** C2.  The claim does not hold of the code.  The 9x9 board [clash] holds
    digits and one empty cell and has no valid completion (its last row
    holds two ["7"]); [solve_sudoku] writes ["5"] into the empty cell and
    returns [True], and the board it leaves is not a valid solution. *)
Lemma solve_sudoku_clash :
  shape9 clash ∧ digit_cells clash ∧ (∀ s, ¬ completion clash s) ∧
  ∃ st', solve_sudoku 81 (State clash []) = (Done true, st') ∧
         cells st' = upd clash (0, 0) "5" ∧
         cells st' ≠ clash ∧ ¬ solved (cells st').
Proof.
  split; [by_evaluation|]. split; [by_evaluation|]. split.
  - intros s Hs. apply completion_consistent in Hs. revert Hs. by_evaluation.
  - eexists. split; [vm_compute; reflexivity|].
    split; [vm_compute; reflexivity|]. split; by_evaluation.
Qed.

(** X15.  On a 9x9 board [solve_sudoku] returns; when it returns [False],
    every cell holds what it held before the call: each digit the search
    wrote has been reset.  If the cells hold digits or the empty marker and
    the filled cells are mutually consistent, it returns [False] exactly
    when the board has no valid completion. *)
Theorem solve_sudoku_unsolvable (st : state) (n : nat) :
  shape9 (cells st) → (81 ≤ n)%nat →
  ∃ r st', solve_sudoku n st = (Done r, st') ∧
           (r = false → cells st' = cells st) ∧
           (digit_cells (cells st) → consistent (cells st) →
            (r = false ↔ ∀ s, ¬ completion (cells st) s)).
Proof.
  intros Hb Hn.
  destruct (solve_sudoku_run st n Hb Hn) as (r & b' & tr & Hout & Hb' & _ & Hr).
  exists r, (State b' (tr ++ history st)). split; [done|]. cbn [cells].
  destruct r.
  - split; [done|]. intros Hdig Hcons. split; [done|]. intros Hnone.
    destruct (Hnone b'). by apply fills_completion.
  - destruct Hr as [-> Hnone]. split; [done|]. intros _ _. split; [|done].
    intros _ s Hs. apply (Hnone s). by apply completion_fills.
Qed.

Lemma solve_sudoku_unsolvable_witness :
  shape9 backtrack ∧
  ∃ r st', solve_sudoku 81 (State backtrack []) = (Done r, st') ∧
           (r = false → cells st' = backtrack) ∧
           (digit_cells backtrack → consistent backtrack →
            (r = false ↔ ∀ s, ¬ completion backtrack s)).
Proof.
  assert (H1 : shape9 backtrack) by by_evaluation.
  split; [exact H1|].
  apply (solve_sudoku_unsolvable (State backtrack []) 81); [exact H1|lia].
Defined.

Lemma elem_of_box_cells (o q : pos) :
  q ∈ box_cells o ↔ (o.1 ≤ q.1 < o.1 + 3) ∧ (o.2 ≤ q.2 < o.2 + 3).
Proof.
  unfold box_cells. rewrite list_elem_of_bind. split.
  - intros (i & Hq & Hi). apply list_elem_of_bind in Hq as (j & Hq & Hj).
    apply list_elem_of_singleton in Hq as ->.
    apply elem_of_range in Hi, Hj. done.
  - destruct q as [i j]. intros [Hi Hj]. cbn [fst snd] in Hi, Hj. exists i. split.
    + apply list_elem_of_bind. exists j. split; [by apply list_elem_of_singleton|].
      by apply elem_of_range.
    + by apply elem_of_range.
Qed.

(** The cells that [is_valid] scans are [p] and the cells of C3. *)
Lemma scanned_others_free (b : board) (p : pos) (d : string) :
  in_grid p →
  (∀ q, scanned p q → cell b q ≠ d) ↔ cell b p ≠ d ∧ others_free b p d.
Proof.
  intros Hp. unfold others_free. rewrite !Forall_forall.
  setoid_rewrite elem_of_range. setoid_rewrite elem_of_box_cells.
  cbn [fst snd]. split.
  - intros H. split_and!.
    + apply H. split; [done|]. by left.
    + intros j Hj _. apply H. split; [split; [apply Hp|done]|]. by left.
    + intros i Hi _. apply H. split; [split; [done|apply Hp]|]. right. by left.
    + intros q Hq _. apply H. split; [|by right; right].
      destruct Hp, Hq. unfold in_grid. Z.div_mod_to_equations. lia.
  - intros (Hown & Hrow & Hcol & Hbox) q [Hq Hscan].
    destruct (decide (q = p)) as [->|Hne]; [done|].
    destruct q as [i j], p as [r c]. cbn [fst snd] in *.
    destruct Hq as [Hi Hj]. cbn [fst snd] in *.
    destruct Hscan as [->|[->|Hin]].
    + apply Hrow; [done|congruence].
    + apply Hcol; [done|congruence].
    + by apply (Hbox (i, j)).
Qed.

(** C3, as stated, fails when the cell [(row, col)] itself holds the digit:
    in [classic] no other cell of row 0, column 0 or the first box holds the
    ["5"] of cell (0, 0), and [is_valid] answers [False]. *)
Lemma is_valid_counterexample :
  shape9 classic ∧ in_grid (0, 0) ∧ "5" ∈ digits ∧
  others_free classic (0, 0) "5" ∧
  is_valid 0 0 "5" (State classic []) = (Done false, State classic []).
Proof.
  split; [by_evaluation|]. split; [by_evaluation|]. split; [by_evaluation|].
  split; [by_evaluation|]. vm_compute. reflexivity.
Qed.

(** C3, amended.  On a 9x9 board, for a row and a column in [0, 8],
    [is_valid] returns [True] if and only if the cell [(row, col)] does not
    hold the digit and no other cell of its row, of its column or of its box
    holds it. *)
Theorem is_valid_iff (st : state) (row col : Z) (digit : string) :
  shape9 (cells st) → in_grid (row, col) →
  ∃ v, is_valid row col digit st = (Done v, st) ∧
       (v = true ↔
        cell (cells st) (row, col) ≠ digit ∧
        others_free (cells st) (row, col) digit).
Proof.
  intros Hb Hp.
  destruct (is_valid_run st (row, col) digit Hb Hp) as (v & Hv & Hiff).
  exists v. split; [done|]. by rewrite Hiff, scanned_others_free.
Qed.

Lemma is_valid_iff_witness :
  shape9 classic ∧ in_grid (0, 2) ∧
  ∃ v, is_valid 0 2 "4" (State classic []) = (Done v, State classic []) ∧
       (v = true ↔
        cell classic (0, 2) ≠ "4" ∧ others_free classic (0, 2) "4").
Proof.
  assert (H1 : shape9 classic) by by_evaluation.
  assert (H2 : in_grid (0, 2)) by by_evaluation.
  split; [exact H1|]. split; [exact H2|].
  apply (is_valid_iff (State classic []) 0 2 "4"); [exact H1|exact H2].
Defined.

(** C4.  On a 9x9 board [solve_sudoku] terminates: a budget of as many
    nested recursive calls as the board has empty cells, at most 81, is
    never exceeded, and every recursive call of the run is made on a board
    with strictly fewer empty cells than the board of its caller. *)
Theorem solve_sudoku_terminates (st : state) (n : nat) :
  shape9 (cells st) → (count_empty (cells st) ≤ n)%nat →
  (count_empty (cells st) ≤ 81)%nat ∧
  ∃ r st', solve_sudoku n st = (Done r, st') ∧
           solve_sudoku_descending n st = (Done r, st').
Proof.
  intros Hb Hn. split; [by apply count_empty_le|].
  destruct (solve_sudoku_spec n st Hb Hn) as (r & b' & tr & Hout & _).
  exists r, (State b' (tr ++ history st)). split; [done|].
  by rewrite solve_sudoku_descending_eq.
Qed.

Lemma solve_sudoku_terminates_witness :
  shape9 classic ∧ (count_empty classic ≤ 51)%nat ∧
  (count_empty classic ≤ 81)%nat ∧
  ∃ r st', solve_sudoku 51 (State classic []) = (Done r, st') ∧
           solve_sudoku_descending 51 (State classic []) = (Done r, st').
Proof.
  assert (H1 : shape9 classic) by by_evaluation.
  assert (H2 : (count_empty classic ≤ 51)%nat) by by_evaluation.
  split; [exact H1|]. split; [exact H2|].
  apply (solve_sudoku_terminates (State classic []) 51); [exact H1|exact H2].
Defined.

(** C5.  When the filled cells of the 9x9 input board form a consistent
    partial assignment, so do the filled cells of the board after every
    write of the run and of the board on return; every value written is a
    digit ['1'..'9'] or the empty marker. *)
Theorem solve_sudoku_invariant (st : state) (n : nat) :
  shape9 (cells st) → consistent (cells st) → (81 ≤ n)%nat →
  ∃ r b' tr,
    solve_sudoku n st = (Done r, State b' (tr ++ history st)) ∧
    Forall (λ e, consistent (w_after e) ∧ w_val e ∈ "" :: digits) tr ∧
    consistent b'.
Proof.
  intros Hb Hcons Hn.
  destruct (solve_sudoku_run st n Hb Hn) as (r & b' & tr & Hout & Hb' & Htr & Hr).
  exists r, b', tr. split; [done|]. split.
  - eapply Forall_impl; [exact Htr|]. intros e (_ & _ & Hval & _ & _ & Hc).
    split; [by apply Hc|done].
  - destruct r; [|by destruct Hr as [-> _]].
    apply consistent_spec. intros p q Hp Hq Hne Hpq _.
    rewrite consistent_spec in Hcons. destruct Hr as [_ H].
    destruct (H p Hp) as [Hkeep Hnew]. destruct (H q Hq) as [Hkeep' Hnew'].
    destruct (decide (cell (cells st) p = "")) as [Hnil|Hfilled].
    { by apply Hnew. }
    destruct (decide (cell (cells st) q = "")) as [Hnil'|Hfilled'].
    { intros Heq. destruct (Hnew' Hnil') as [_ Hdiff].
      apply (Hdiff p Hp); [done|by apply same_unit_sym|done]. }
    rewrite Hkeep, Hkeep' by done. by apply Hcons.
Qed.

Lemma solve_sudoku_invariant_witness :
  shape9 classic ∧ consistent classic ∧
  ∃ r b' tr,
    solve_sudoku 81 (State classic []) = (Done r, State b' (tr ++ [])) ∧
    Forall (λ e, consistent (w_after e) ∧ w_val e ∈ "" :: digits) tr ∧
    consistent b'.
Proof.
  assert (H1 : shape9 classic) by by_evaluation.
  assert (H2 : consistent classic) by by_evaluation.
  split; [exact H1|]. split; [exact H2|].
  apply (solve_sudoku_invariant (State classic []) 81); [exact H1|exact H2|lia].
Defined.

(** C6.  On a 9x9 board [find_empty] returns the coordinate of the first
    cell, in row-major order, that holds the empty marker, and [None]
    exactly when no cell holds it. *)
Theorem find_empty_first (st : state) :
  shape9 (cells st) →
  ∃ o, find_empty st = (Done o, st) ∧
       (o = None ↔ ∀ q, in_grid q → cell (cells st) q ≠ "") ∧
       (∀ p, o = Some p →
             in_grid p ∧ cell (cells st) p = "" ∧
             ∀ q, in_grid q → before q p → cell (cells st) q ≠ "").
Proof.
  intros Hb. exists (first_empty (cells st)).
  split; [by apply find_empty_run|]. split.
  - by rewrite first_empty_None, full_spec.
  - intros p. apply first_empty_Some.
Qed.

Lemma find_empty_first_witness :
  shape9 classic ∧
  ∃ o, find_empty (State classic []) = (Done o, State classic []) ∧
       (o = None ↔ ∀ q, in_grid q → cell classic q ≠ "") ∧
       (∀ p, o = Some p →
             in_grid p ∧ cell classic p = "" ∧
             ∀ q, in_grid q → before q p → cell classic q ≠ "").
Proof.
  assert (H1 : shape9 classic) by by_evaluation.
  split; [exact H1|].
  apply (find_empty_first (State classic [])); exact H1.
Defined.

Example find_empty_classic :
  find_empty (State classic []) = (Done (Some (0, 2)), State classic []).
Proof. vm_compute. reflexivity. Qed.

(** C7.  On a fully and validly filled 9x9 board [solve_sudoku] returns
    [True] and writes nothing; and whenever a call on a 9x9 board has
    returned [True], a second call on the board it left returns [True] and
    writes nothing. *)
Theorem solve_sudoku_idempotent (st : state) (n m : nat) :
  shape9 (cells st) → (81 ≤ n)%nat →
  ∃ r st', solve_sudoku n st = (Done r, st') ∧
           (full (cells st) → solved (cells st) → r = true ∧ st' = st) ∧
           (r = true → solve_sudoku m st' = (Done true, st')).
Proof.
  intros Hb Hn.
  assert (Hfix : ∀ k st1, shape9 (cells st1) → full (cells st1) →
                          solve_sudoku k st1 = (Done true, st1)).
  { intros k st1 Hb1 Hfull. apply first_empty_None in Hfull.
    destruct k; simpl; by rewrite solve_body_unfold, find_empty_run, Hfull. }
  destruct (solve_sudoku_run st n Hb Hn) as (r & b' & tr & Hout & Hb' & _ & Hr).
  exists r, (State b' (tr ++ history st)). split; [done|]. split.
  - intros Hfull _. rewrite (Hfix n st Hb Hfull) in Hout.
    by injection Hout as <- <-.
  - intros ->. apply Hfix; [done|]. by apply (fills_is_full (cells st)).
Qed.

Lemma solve_sudoku_idempotent_witness :
  shape9 classic_solution ∧ full classic_solution ∧ solved classic_solution ∧
  ∃ r st', solve_sudoku 81 (State classic_solution []) = (Done r, st') ∧
           (full classic_solution → solved classic_solution →
            r = true ∧ st' = State classic_solution []) ∧
           (r = true → solve_sudoku 0 st' = (Done true, st')).
Proof.
  assert (H1 : shape9 classic_solution) by by_evaluation.
  split; [exact H1|]. split; [by_evaluation|]. split; [by_evaluation|].
  apply (solve_sudoku_idempotent (State classic_solution []) 81 0); [exact H1|lia].
Defined.

(** C8.  [is_valid] has no side effect: whatever the board, the row, the
    column and the digit, and whether it returns or raises, it leaves the
    board as it found it. *)
Theorem is_valid_frame (st : state) (row col : Z) (digit : string) :
  (is_valid row col digit st).2 = st.
Proof. apply read_only_is_valid. Qed.

(** C9.  On a 9x9 board without an empty cell [solve_sudoku] returns [True]
    and writes nothing, whether or not the board obeys the rules: the filled
    cells are never checked. *)
Theorem solve_sudoku_full (st : state) (n : nat) :
  shape9 (cells st) → full (cells st) →
  solve_sudoku n st = (Done true, st).
Proof.
  intros Hb Hfull. apply first_empty_None in Hfull.
  destruct n; simpl; by rewrite solve_body_unfold, find_empty_run, Hfull.
Qed.

Lemma solve_sudoku_full_witness :
  shape9 all_ones ∧ full all_ones ∧ ¬ consistent all_ones ∧ ¬ solved all_ones ∧
  solve_sudoku 0 (State all_ones []) = (Done true, State all_ones []).
Proof.
  assert (H1 : shape9 all_ones) by by_evaluation.
  assert (H2 : full all_ones) by by_evaluation.
  split; [exact H1|]. split; [exact H2|].
  split; [by_evaluation|]. split; [by_evaluation|].
  apply (solve_sudoku_full (State all_ones []) 0); [exact H1|exact H2].
Defined.

(** C10.  On a 9x9 board, every cell that is not empty when [solve_sudoku]
    is called holds the same value when it returns, [True] or [False]: every
    write of the run goes to a cell that was empty at the call. *)
Theorem solve_sudoku_frame (st : state) (n : nat) :
  shape9 (cells st) → (81 ≤ n)%nat →
  ∃ r b' tr,
    solve_sudoku n st = (Done r, State b' (tr ++ history st)) ∧
    (∀ p, in_grid p → cell (cells st) p ≠ "" → cell b' p = cell (cells st) p) ∧
    Forall (λ e, in_grid (w_row e, w_col e) ∧
                 cell (cells st) (w_row e, w_col e) = "") tr.
Proof.
  intros Hb Hn.
  destruct (solve_sudoku_run st n Hb Hn) as (r & b' & tr & Hout & Hb' & Htr & Hr).
  exists r, b', tr. split; [done|]. split.
  - destruct r; [|by destruct Hr as [-> _]].
    intros p Hp. destruct Hr as [_ H]. by apply (H p Hp).
  - eapply Forall_impl; [exact Htr|]. by intros e (? & ? & _).
Qed.

Lemma solve_sudoku_frame_witness :
  shape9 classic ∧
  ∃ r b' tr,
    solve_sudoku 81 (State classic []) = (Done r, State b' (tr ++ [])) ∧
    (∀ p, in_grid p → cell classic p ≠ "" → cell b' p = cell classic p) ∧
    Forall (λ e, in_grid (w_row e, w_col e) ∧
                 cell classic (w_row e, w_col e) = "") tr.
Proof.
  assert (H1 : shape9 classic) by by_evaluation.
  split; [exact H1|].
  apply (solve_sudoku_frame (State classic []) 81); [exact H1|lia].
Defined.

(** * Further properties *)

(** ** Programs on boards of any shape *)

Lemma for_each_read_only_Some {A B : Type} (l : list A) (body : A → M (option B))
    (st st' : state) (y : B) :
  (∀ x, read_only (body x)) →
  for_each l body st = (Done (Some y), st') →
  st' = st ∧ ∃ x, x ∈ l ∧ body x st = (Done (Some y), st).
Proof.
  intros Hro. induction l as [|a l IH]; [done|].
  rewrite for_each_cons_run. pose proof (Hro a st) as Ha.
  destruct (body a st) as [[[z|]| |] st1] eqn:Hbody; cbn [snd] in Ha; subst st1;
    try done.
  - intros [= -> ->]. split; [done|]. exists a. split; [by left|done].
  - intros H. destruct (IH H) as [-> (x & Hx & Hbx)]. split; [done|].
    exists x. split; [by right|done].
Qed.

Lemma for_each_read_only_None {A B : Type} (l : list A) (body : A → M (option B))
    (st st' : state) :
  (∀ x, read_only (body x)) →
  for_each l body st = (Done None, st') →
  st' = st ∧ ∀ x, x ∈ l → body x st = (Done None, st).
Proof.
  intros Hro. induction l as [|a l IH].
  { intros [= ->]. split; [done|]. intros x Hx. by apply elem_of_nil in Hx. }
  rewrite for_each_cons_run. pose proof (Hro a st) as Ha.
  destruct (body a st) as [[[z|]| |] st1] eqn:Hbody; cbn [snd] in Ha; subst st1;
    try done.
  intros H. destruct (IH H) as [-> Hall]. split; [done|].
  intros x Hx. apply elem_of_cons in Hx as [->|Hx]; [done|by apply Hall].
Qed.

Lemma read_Done (i j : Z) (st st' : state) (v : string) :
  read i j st = (Done v, st') → st' = st.
Proof.
  intros H. pose proof (read_only_read i j st) as Hro. by rewrite H in Hro.
Qed.

Lemma find_empty_Done (st st' : state) (o : option (Z * Z)) :
  find_empty st = (Done o, st') →
  st' = st ∧
  match o with
  | Some p => in_grid p ∧ read p.1 p.2 st = (Done "", st)
  | None => ∀ p, in_grid p → ∃ v, read p.1 p.2 st = (Done v, st) ∧ v ≠ ""
  end.
Proof.
  assert (Hinner : ∀ i j, read_only
            (v <~ read i j;; if String.eqb v "" then ret (Some (i, j)) else ret None)).
  { intros i j. apply read_only_bind; [apply read_only_read|].
    intros v. apply read_only_if; apply read_only_ret. }
  assert (Houter : ∀ i, read_only (for_each (range 0 9) (λ j,
            v <~ read i j;; if String.eqb v "" then ret (Some (i, j)) else ret None))).
  { intros i. by apply read_only_for_each. }
  unfold find_empty. destruct o as [p|]; intros H.
  - apply for_each_read_only_Some in H as [-> (i & Hi & H)]; [|done].
    apply for_each_read_only_Some in H as [_ (j & Hj & H)]; [|done].
    apply elem_of_range in Hi, Hj. split; [done|].
    unfold bind in H. destruct (read i j st) as [[v| |] st1] eqn:Hread; try done.
    pose proof (read_Done _ _ _ _ _ Hread) as ->.
    destruct (String.eqb_spec v "") as [Hv|]; [|done].
    injection H as <-. by subst v.
  - apply for_each_read_only_None in H as [-> H]; [|done].
    split; [done|]. intros [i j] [Hi Hj]. cbn [fst snd] in *.
    specialize (H i ltac:(by apply elem_of_range)). cbv beta in H.
    apply for_each_read_only_None in H as [_ H]; [|done].
    specialize (H j ltac:(by apply elem_of_range)). cbv beta in H.
    unfold bind in H. destruct (read i j st) as [[v| |] st1] eqn:Hread; try done.
    pose proof (read_Done _ _ _ _ _ Hread) as ->.
    exists v. split; [done|]. by destruct (String.eqb_spec v "").
Qed.

(** X2.  On a board of any shape: a coordinate that [find_empty] returns is
    in [0, 8] x [0, 8] and [board[i][j]] is the empty marker there; when it
    returns [None], each [board[i][j]] with [i], [j] in [0, 8] exists and is
    not empty.  In both cases the board is left as it was. *)
Theorem find_empty_any_board (st st' : state) (o : option (Z * Z)) :
  find_empty st = (Done o, st') →
  st' = st ∧
  match o with
  | Some p => in_grid p ∧ read p.1 p.2 st = (Done "", st)
  | None => ∀ p, in_grid p → ∃ v, read p.1 p.2 st = (Done v, st) ∧ v ≠ ""
  end.
Proof. apply find_empty_Done. Qed.

Lemma find_empty_any_board_witness :
  find_empty (State stub []) = (Done (Some (0, 1)), State stub []) ∧
  State stub [] = State stub [] ∧
  in_grid (0, 1) ∧ read 0 1 (State stub []) = (Done "", State stub []).
Proof.
  assert (H1 : find_empty (State stub []) = (Done (Some (0, 1)), State stub []))
    by (vm_compute; reflexivity).
  split; [exact H1|].
  apply (find_empty_any_board (State stub []) (State stub []) (Some (0, 1)) H1).
Defined.

(** X1.  [find_empty] has no side effect: on every board, and whether it
    returns or raises, the board is left as it was. *)
Theorem find_empty_frame (st : state) : (find_empty st).2 = st.
Proof. apply read_only_find_empty. Qed.

(** ** What a run keeps, on boards of any shape *)

Section keeps.
Context (R : state → state → Prop) `{!Reflexive R} `{!Transitive R}.

Lemma keeps_ret {A : Type} (a : A) : keeps R (ret a).
Proof using Type*. intros st. simpl. done. Qed.

Lemma keeps_bind {A B : Type} (m : M A) (k : A → M B) :
  keeps R m → (∀ a, keeps R (k a)) → keeps R (bind m k).
Proof using Type*.
  intros Hm Hk st. unfold bind. specialize (Hm st).
  destruct (m st) as [[a| |] st1]; simpl in *; [|done..].
  trans st1; [done|apply Hk].
Qed.

Lemma keeps_read_only {A : Type} (m : M A) : read_only m → keeps R m.
Proof using Type*. intros Hm st. by rewrite Hm. Qed.

Lemma keeps_for_each {A B : Type} (l : list A) (body : A → M (option B)) :
  (∀ x, keeps R (body x)) → keeps R (for_each l body).
Proof using Type*.
  intros Hbody. induction l as [|a l IH]; simpl; [apply keeps_ret|].
  apply keeps_bind; [done|]. intros [y|]; [apply keeps_ret|done].
Qed.

Lemma keeps_solve_body (self_solve : M bool) :
  (∀ i j v, keeps R (write i j v)) → keeps R self_solve →
  keeps R (solve_body self_solve).
Proof using Type*.
  intros Hw Hrec. unfold solve_body.
  apply keeps_bind; [apply keeps_read_only, read_only_find_empty|].
  intros [[row col]|]; [|apply keeps_ret].
  apply keeps_bind; [|intros [v|]; apply keeps_ret].
  apply keeps_for_each. intros d.
  apply keeps_bind; [apply keeps_read_only, read_only_is_valid|].
  intros [|]; [|apply keeps_ret].
  apply keeps_bind; [done|]. intros _.
  apply keeps_bind; [done|]. intros [|]; [apply keeps_ret|].
  apply keeps_bind; [done|]. intros _. apply keeps_ret.
Qed.

Lemma keeps_solve_sudoku (n : nat) :
  (∀ i j v, keeps R (write i j v)) → keeps R (solve_sudoku n).
Proof using Type*.
  intros Hw. induction n as [|n IH]; simpl; by apply keeps_solve_body.
Qed.
End keeps.

#[global] Instance same_shape_cells_refl :
  Reflexive (λ st st', same_shape (cells st) (cells st')).
Proof. by intros st. Qed.

#[global] Instance same_shape_cells_trans :
  Transitive (λ st st', same_shape (cells st) (cells st')).
Proof. intros st1 st2 st3. unfold same_shape. congruence. Qed.

Lemma assign_same_shape (b b' : board) (i j : Z) (v : string) :
  assign b i j v = Some b' → same_shape b b'.
Proof.
  unfold assign, py_setitem, same_shape.
  destruct (py_norm (length b) i) as [k|]; [|done]. simpl.
  destruct (b !! k) as [row|] eqn:Hrow; [|done]. simpl.
  destruct (py_norm (length row) j) as [k'|]; [|done]. simpl.
  intros [= <-]. rewrite list_fmap_insert, length_insert.
  symmetry. apply list_insert_id. by rewrite list_lookup_fmap, Hrow.
Qed.

Lemma write_same_shape (i j : Z) (v : string) :
  keeps (λ st st', same_shape (cells st) (cells st')) (write i j v).
Proof.
  intros st. unfold write.
  destruct (assign (cells st) i j v) as [b'|] eqn:Hb; [|done].
  simpl. by apply assign_same_shape in Hb.
Qed.

(** X8.  Whatever the board, and however the call ends, [solve_sudoku]
    leaves the board with the rows it had, each of the length it had. *)
Theorem solve_sudoku_same_shape (st : state) (n : nat) :
  same_shape (cells st) (cells (solve_sudoku n st).2).
Proof.
  apply (keeps_solve_sudoku (λ st st', same_shape (cells st) (cells st'))).
  apply write_same_shape.
Qed.

(** ** Success on boards of any shape *)

Lemma for_each_Some_inv {A B : Type} (l : list A) (body : A → M (option B))
    (st st' : state) (y : B) :
  for_each l body st = (Done (Some y), st') →
  ∃ x st0, x ∈ l ∧ body x st0 = (Done (Some y), st').
Proof.
  revert st. induction l as [|a l IH]; intros st; [done|].
  rewrite for_each_cons_run.
  destruct (body a st) as [[[z|]| |] st1] eqn:Hbody; try done.
  - intros [= -> ->]. exists a, st. split; [by left|done].
  - intros H. destruct (IH _ H) as (x & st0 & Hx & Hbx).
    exists x, st0. split; [by right|done].
Qed.

Lemma try_digit_Some (self_solve : M bool) (row col : Z) (d : string)
    (st st' : state) (v : bool) :
  try_digit self_solve row col d st = (Done (Some v), st') →
  v = true ∧ ∃ st1, self_solve st1 = (Done true, st').
Proof.
  unfold try_digit, bind.
  destruct (is_valid row col d st) as [[[|]| |] s1]; try done.
  destruct (write row col d s1) as [[[]| |] s2]; try done.
  destruct (self_solve s2) as [[[|]| |] s3] eqn:Hrec; try done.
  - intros [= <- <-]. split; [done|]. by exists s2.
  - by destruct (write row col "" s3) as [[[]| |] s4].
Qed.

(** A successful run ends in a state where [find_empty] finds nothing. *)
Lemma solve_sudoku_true_leaf (n : nat) (st st' : state) :
  solve_sudoku n st = (Done true, st') → find_empty st' = (Done None, st').
Proof.
  revert st. induction n as [|n IH]; intros st; simpl;
    rewrite solve_body_unfold; pose proof (read_only_find_empty st) as Hro;
    destruct (find_empty st) as [[[[row col]|]| |] st1] eqn:Hfe;
    cbn [snd] in Hro; subst st1; try done.
  - destruct (for_each digits _ st) as [[[v|]| |] st2] eqn:Hloop; try done.
    intros [= -> <-]. apply for_each_Some_inv in Hloop as (d & st0 & _ & Htry).
    by apply try_digit_Some in Htry as [_ (s1 & Hrec)].
  - by intros [= <-].
  - destruct (for_each digits _ st) as [[[v|]| |] st2] eqn:Hloop; try done.
    intros [= -> <-]. apply for_each_Some_inv in Hloop as (d & st0 & _ & Htry).
    apply try_digit_Some in Htry as [_ (s1 & Hrec)]. by apply IH in Hrec.
  - by intros [= <-].
Qed.

Lemma py_norm_Some_nonneg (len : nat) (i : Z) (k : nat) :
  0 ≤ i → py_norm len i = Some k → k = Z.to_nat i ∧ (Z.to_nat i < len)%nat.
Proof.
  intros Hi. unfold py_norm.
  destruct (Z.leb_spec 0 i); [|lia].
  destruct (Z.ltb_spec i (Z.of_nat len)); simpl.
  - intros [= <-]. lia.
  - destruct (Z.leb_spec (- Z.of_nat len) i), (Z.ltb_spec i 0); simpl; try done; lia.
Qed.

Lemma read_Done_lookup (i j : Z) (st st' : state) (v : string) :
  0 ≤ i → 0 ≤ j → read i j st = (Done v, st') →
  ∃ row, cells st !! Z.to_nat i = Some row ∧ row !! Z.to_nat j = Some v.
Proof.
  intros Hi Hj. unfold read, py_getitem.
  destruct (py_norm (length (cells st)) i) as [k|] eqn:Hk; [|done]. simpl.
  apply py_norm_Some_nonneg in Hk as [-> _]; [|done].
  destruct (cells st !! Z.to_nat i) as [row|] eqn:Hrow; [|done].
  destruct (py_norm (length row) j) as [k'|] eqn:Hk'; [|done]. simpl.
  apply py_norm_Some_nonneg in Hk' as [-> _]; [|done].
  destruct (row !! Z.to_nat j) as [w|] eqn:Hw; [|done].
  intros [= -> _]. by exists row.
Qed.

Lemma find_empty_None_covers (st st' : state) :
  find_empty st = (Done None, st') → covers_grid (cells st).
Proof.
  intros H. apply find_empty_Done in H as [_ H]. split.
  - destruct (H (8, 8)) as (v & Hv & _); [by_evaluation|].
    apply read_Done_lookup in Hv as (row & Hrow & _); [|done..].
    apply lookup_lt_Some in Hrow. simpl in Hrow. lia.
  - apply Forall_lookup_2. intros k row Hk.
    apply lookup_take_Some in Hk as [Hk Hlt].
    destruct (H (Z.of_nat k, 8)) as (v & Hv & _).
    { unfold in_grid. simpl. lia. }
    apply read_Done_lookup in Hv as (row' & Hrow' & Hv); [|simpl; lia..].
    simpl in Hrow', Hv. rewrite Nat2Z.id, Hk in Hrow'. injection Hrow' as <-.
    apply lookup_lt_Some in Hv. lia.
Qed.

Lemma covers_grid_same_shape (b b' : board) :
  same_shape b b' → covers_grid b' → covers_grid b.
Proof.
  unfold same_shape, covers_grid. intros Hs [Hlen Hrows].
  assert (Hl : length b = length b').
  { by rewrite <- (length_fmap length b), Hs, length_fmap. }
  split; [lia|]. apply Forall_lookup_2. intros k row Hk.
  apply lookup_take_Some in Hk as [Hk Hlt].
  assert (Hk' : (length <$> b') !! k = Some (length row)).
  { by rewrite <- Hs, list_lookup_fmap, Hk. }
  rewrite list_lookup_fmap in Hk'.
  destruct (b' !! k) as [row'|] eqn:Hrow'; [|done]. injection Hk' as Hk'.
  rewrite <- Hk'. apply (Forall_lookup_1 _ _ k row' Hrows).
  apply lookup_take_Some. done.
Qed.


(** ** Legal moves *)

(** X3.  On a consistent 9x9 board, for an empty cell and a digit,
    [is_valid] returns [True] exactly when writing the digit into the cell
    gives a consistent board again. *)
Theorem is_valid_legal_move (st : state) (row col : Z) (digit : string) :
  shape9 (cells st) → in_grid (row, col) → cell (cells st) (row, col) = "" →
  digit ∈ digits → consistent (cells st) →
  ∃ v st1, is_valid row col digit st = (Done v, st) ∧
           write row col digit st = (Done tt, st1) ∧
           (v = true ↔ consistent (cells st1)).
Proof.
  intros Hb Hp Hnil Hd Hcons.
  destruct (is_valid_run st (row, col) digit Hb Hp) as (v & Hv & Hiff).
  eexists v, _. split; [done|]. split; [by apply (write_run st (row, col))|].
  cbn [cells]. rewrite Hiff. split.
  - intros Hvalid. by apply consistent_upd.
  - intros Hc q Hscan. pose proof (digit_nonempty _ Hd) as Hd'.
    destruct (decide (q = (row, col))) as [->|Hne]; [congruence|].
    apply scanned_same_unit in Hscan as [Hq Hunit]; [|done].
    rewrite consistent_spec in Hc.
    specialize (Hc (row, col) q Hp Hq ltac:(congruence) Hunit).
    rewrite cell_upd_eq, cell_upd_ne in Hc by done. by apply Hc.
Qed.

Lemma is_valid_legal_move_witness :
  shape9 classic ∧ in_grid (0, 2) ∧ cell classic (0, 2) = "" ∧
  "4" ∈ digits ∧ consistent classic ∧
  ∃ v st1, is_valid 0 2 "4" (State classic []) = (Done v, State classic []) ∧
           write 0 2 "4" (State classic []) = (Done tt, st1) ∧
           (v = true ↔ consistent (cells st1)).
Proof.
  assert (H1 : shape9 classic) by by_evaluation.
  assert (H2 : in_grid (0, 2)) by by_evaluation.
  assert (H3 : cell classic (0, 2) = "") by reflexivity.
  assert (H4 : "4" ∈ digits) by by_evaluation.
  assert (H5 : consistent classic) by by_evaluation.
  split; [exact H1|]. split; [exact H2|]. split; [exact H3|].
  split; [exact H4|]. split; [exact H5|].
  apply (is_valid_legal_move (State classic []) 0 2 "4" H1 H2 H3 H4 H5).
Defined.

(** ** When the search succeeds *)

(** X6.  On a 9x9 board, whatever its cells hold, [solve_sudoku] returns
    [True] exactly when the empty cells can be filled with digits each
    different from every other cell of its row, column and box; the board it
    leaves is then such a filling.  Clashes among the given cells play no
    part. *)
Theorem solve_sudoku_true_iff_fills (st : state) (n : nat) :
  shape9 (cells st) → (81 ≤ n)%nat →
  ∃ r st', solve_sudoku n st = (Done r, st') ∧
           (r = true ↔ ∃ s, fills (cells st) s) ∧
           (r = true → fills (cells st) (cells st')).
Proof.
  intros Hb Hn.
  destruct (solve_sudoku_run st n Hb Hn) as (r & b' & tr & Hout & Hb' & _ & Hr).
  exists r, (State b' (tr ++ history st)). split; [done|]. cbn [cells].
  destruct r.
  - split; [|done]. split; [|done]. intros _. by exists b'.
  - destruct Hr as [_ Hnone]. split; [|done]. split; [done|].
    intros [s Hs]. by destruct (Hnone s).
Qed.

Lemma solve_sudoku_true_iff_fills_witness :
  shape9 clash ∧
  ∃ r st', solve_sudoku 81 (State clash []) = (Done r, st') ∧
           (r = true ↔ ∃ s, fills clash s) ∧
           (r = true → fills clash (cells st')).
Proof.
  assert (H1 : shape9 clash) by by_evaluation.
  split; [exact H1|].
  apply (solve_sudoku_true_iff_fills (State clash []) 81); [exact H1|lia].
Defined.

(** ** The first solution *)

Lemma digit_lt_suffix (pre ds : list string) (d d' : string) :
  digits = (pre ++ d :: ds)%list → d' ∈ ds → digit_lt d d'.
Proof.
  intros Hdig Hd'. apply list_elem_of_lookup in Hd' as [k Hk].
  exists (length pre), (length pre + S k)%nat. rewrite Hdig. split_and!.
  - by rewrite list_lookup_middle.
  - rewrite lookup_app_r by lia.
    by replace (length pre + S k - length pre)%nat with (S k) by lia.
  - lia.
Qed.

Lemma digits_loop_first (b : board) (p : pos) (self_solve : M bool) :
  shape9 b → in_grid p → cell b p = "" →
  (∀ q, in_grid q → before q p → cell b q ≠ "") →
  smaller_calls_ok b self_solve self_solve →
  smaller_calls_first b self_solve →
  ∀ ds pre h st',
    digits = (pre ++ ds)%list →
    for_each ds (try_digit self_solve p.1 p.2) (State b h) = (Done (Some true), st') →
    ∀ s, fills b s → cell s p ∈ ds → lex_le (cells st') s.
Proof.
  intros Hb Hp Hnil Hbefore Hrec Hfirst ds.
  induction ds as [|d ds IH]; intros pre h st' Hdig; [done|].
  assert (Hd : d ∈ digits).
  { rewrite Hdig. apply elem_of_app. right. by left. }
  assert (Hdig' : digits = ((pre ++ [d]) ++ ds)%list) by by rewrite <- app_assoc.
  rewrite for_each_cons_run.
  destruct (is_valid_run (State b h) p d Hb Hp) as (v & Hv & Hiff).
  cbn [cells] in Hiff. destruct v.
  - assert (Hvalid : ∀ q, scanned p q → cell b q ≠ d) by by apply Hiff.
    rewrite try_digit_valid by done. cbn [cells history].
    set (b1 := upd b p d). set (e1 := WriteEvent p.1 p.2 d b1).
    assert (Hb1 : shape9 b1) by by apply shape9_upd.
    assert (Hlt : (count_empty b1 < count_empty b)%nat).
    { pose proof (count_empty_upd b p d Hb Hp Hnil (digit_nonempty _ Hd)).
      fold b1 in H. lia. }
    destruct (Hrec (State b1 (e1 :: h)) Hb1 Hlt)
      as [(r1 & b2 & tr1 & Hout & Hb2 & _ & Hr1) _].
    cbn [cells history] in *. rewrite Hout. destruct r1.
    + intros [= <-] s Hs Hin. cbn [cells].
      apply elem_of_cons in Hin as [Hsp|Hin].
      * apply (Hfirst (State b1 (e1 :: h)) _ Hb1 Hlt Hout).
        by apply fills_restrict.
      * right. exists p. split; [done|].
        assert (Hkeep : ∀ q, in_grid q → cell b1 q ≠ "" → cell b2 q = cell b1 q).
        { intros q Hq. destruct Hr1 as [_ H]. by apply (H q Hq). }
        split.
        -- rewrite Hkeep; [|done|]; unfold b1; rewrite cell_upd_eq by done;
             [|by apply digit_nonempty].
           by apply (digit_lt_suffix pre ds).
        -- intros q Hq Hqp. specialize (Hbefore q Hq Hqp).
           assert (Hne : p ≠ q) by (intros <-; congruence).
           destruct Hs as [_ Hs]. destruct (Hs q Hq) as [Hs' _].
           rewrite Hs' by done. rewrite Hkeep; [|done|].
           ++ unfold b1. by rewrite cell_upd_ne.
           ++ unfold b1. by rewrite cell_upd_ne.
    + destruct Hr1 as [-> Hnone].
      rewrite (write_run (State b1 _) p "") by done. cbn [cells history].
      replace (upd b1 p "") with b.
      2:{ subst b1. rewrite <- Hnil. by rewrite upd_restore. }
      intros Hloop s Hs Hin. apply elem_of_cons in Hin as [Hsp|Hin].
      * destruct (Hnone s). by apply fills_restrict.
      * by apply (IH _ _ _ Hdig' Hloop).
  - rewrite try_digit_invalid by done.
    intros Hloop s Hs Hin. apply elem_of_cons in Hin as [Hsp|Hin].
    + assert (true = false); [|done]. symmetry. apply Hiff.
      by apply (valid_of_fills b p d Hb Hp Hnil Hd s).
    + by apply (IH _ _ _ Hdig' Hloop).
Qed.

Lemma solve_sudoku_first_fill (n : nat) (st st' : state) :
  shape9 (cells st) → (count_empty (cells st) ≤ n)%nat →
  solve_sudoku n st = (Done true, st') →
  ∀ s, fills (cells st) s → lex_le (cells st') s.
Proof.
  revert st st'.
  assert (Hbody : ∀ (self_solve : M bool) st st',
    shape9 (cells st) →
    smaller_calls_ok (cells st) self_solve self_solve →
    smaller_calls_first (cells st) self_solve →
    solve_body self_solve st = (Done true, st') →
    ∀ s, fills (cells st) s → lex_le (cells st') s).
  { intros self_solve st st' Hb Hrec Hfirst.
    rewrite solve_body_unfold, find_empty_run by done.
    destruct (first_empty (cells st)) as [[row col]|] eqn:Hfe.
    - apply first_empty_Some in Hfe as (Hp & Hnil & Hbefore).
      destruct st as [b h]. cbn [cells history] in *.
      destruct (for_each digits _ _) as [[[v|]| |] st2] eqn:Hloop; try done.
      intros [= -> <-] s Hs.
      apply (digits_loop_first b (row, col) self_solve Hb Hp Hnil Hbefore
               Hrec Hfirst digits [] h st2 eq_refl Hloop s Hs).
      destruct Hs as [_ Hs]. by apply (Hs (row, col) Hp).
    - apply first_empty_None in Hfe. rewrite full_spec in Hfe.
      intros [= <-] s [_ Hs]. left. intros p Hp.
      destruct (Hs p Hp) as [Hkeep _]. symmetry. by apply Hkeep, Hfe. }
  induction n as [|n IH]; intros st st' Hb Hn; simpl; apply Hbody; try done.
  - intros st1 _ Hlt. lia.
  - intros st1 Hb1 Hlt. split; [|done]. apply solve_sudoku_spec; [done|lia].
  - intros st1 st2 Hb1 Hlt. apply IH; [done|lia].
Qed.

(** X7.  Of the valid completions of a 9x9 board, and more generally of the
    boards that fill it, [solve_sudoku] leaves the first one: the one that
    holds the smaller digit in the first cell, in row-major order, where two
    of them differ. *)
Theorem solve_sudoku_first_solution (st : state) (n : nat) :
  shape9 (cells st) → (81 ≤ n)%nat →
  ∃ r st', solve_sudoku n st = (Done r, st') ∧
           (r = true →
            ∀ s, fills (cells st) s ∨ completion (cells st) s →
                 lex_le (cells st') s).
Proof.
  intros Hb Hn.
  destruct (solve_sudoku_run st n Hb Hn) as (r & b' & tr & Hout & _).
  exists r, (State b' (tr ++ history st)). split; [done|].
  intros -> s Hs. apply (solve_sudoku_first_fill n st _ Hb); [|done|].
  - pose proof (count_empty_le _ Hb). lia.
  - destruct Hs as [Hs|Hs]; [done|by apply completion_fills].
Qed.

Lemma solve_sudoku_first_solution_witness :
  shape9 classic ∧
  ∃ r st', solve_sudoku 81 (State classic []) = (Done r, st') ∧
           (r = true →
            ∀ s, fills classic s ∨ completion classic s → lex_le (cells st') s).
Proof.
  assert (H1 : shape9 classic) by by_evaluation.
  split; [exact H1|].
  apply (solve_sudoku_first_solution (State classic []) 81); [exact H1|lia].
Defined.

(** ** Coordinates outside of [0, 8] *)

Lemma py_norm_wrap9 (i : Z) :
  -9 ≤ i < 9 → py_norm 9 i = Some (Z.to_nat (i mod 9)).
Proof.
  intros Hi. unfold py_norm.
  destruct (Z.leb_spec 0 i), (Z.ltb_spec i (Z.of_nat 9)); simpl; try lia.
  - by rewrite Z.mod_small by lia.
  - destruct (Z.leb_spec (- Z.of_nat 9) i), (Z.ltb_spec i 0); simpl; try lia.
    do 2 f_equal. Z.div_mod_to_equations. lia.
Qed.

Lemma py_norm_out9 (i : Z) : ¬ (-9 ≤ i < 9) → py_norm 9 i = None.
Proof.
  intros Hi. unfold py_norm.
  destruct (Z.leb_spec 0 i), (Z.ltb_spec i (Z.of_nat 9)); simpl; try lia.
  - destruct (Z.leb_spec (- Z.of_nat 9) i), (Z.ltb_spec i 0); simpl; try lia; done.
  - destruct (Z.leb_spec (- Z.of_nat 9) i), (Z.ltb_spec i 0); simpl; try lia; done.
Qed.

(** Negative indices count from the end. *)
Lemma read_wrap (i j : Z) (st : state) :
  shape9 (cells st) → -9 ≤ i < 9 → -9 ≤ j < 9 →
  read i j st = (Done (cell (cells st) (i mod 9, j mod 9)), st).
Proof.
  intros Hb Hi Hj.
  assert (Hp : in_grid (i mod 9, j mod 9)).
  { unfold in_grid. simpl. Z.div_mod_to_equations. lia. }
  destruct (shape9_lookup _ _ Hb Hp) as (row & Hrow & Hlen & Hv).
  destruct Hb as [Hb _]. cbn [fst snd] in *.
  unfold read, py_getitem. rewrite Hb, py_norm_wrap9 by done. simpl.
  rewrite Hrow, Hlen, py_norm_wrap9 by done. simpl. by rewrite Hv.
Qed.

Lemma read_row_out (i j : Z) (st : state) :
  shape9 (cells st) → ¬ (-9 ≤ i < 9) → read i j st = (IndexError, st).
Proof.
  intros [Hb _] Hi. unfold read, py_getitem. by rewrite Hb, py_norm_out9.
Qed.

Lemma read_col_out (i j : Z) (st : state) :
  shape9 (cells st) → -9 ≤ i < 9 → ¬ (-9 ≤ j < 9) →
  read i j st = (IndexError, st).
Proof.
  intros Hb Hi Hj.
  assert (Hp : in_grid (i mod 9, 0)).
  { unfold in_grid. simpl. Z.div_mod_to_equations. lia. }
  destruct (shape9_row _ _ Hb Hp) as (row & Hrow & Hlen).
  destruct Hb as [Hb _]. cbn [fst snd] in *.
  unfold read, py_getitem. rewrite Hb, py_norm_wrap9 by done. simpl.
  by rewrite Hrow, Hlen, py_norm_out9.
Qed.

Lemma is_valid_wrap (st : state) (row col : Z) (d : string) :
  shape9 (cells st) → -9 ≤ row < 9 → -9 ≤ col < 9 →
  ∃ v, is_valid row col d st = (Done v, st)
       ∧ (v = true ↔ ∀ q, scanned (row mod 9, col mod 9) q → cell (cells st) q ≠ d).
Proof.
  intros Hb Hr Hc. set (b := cells st).
  unfold is_valid, bind at 1.
  rewrite (for_each_pure _ _ (λ i,
    if String.eqb (cell b (row mod 9, i)) d then Some false
    else if String.eqb (cell b (i, col mod 9)) d then Some false else None)).
  2:{ intros i Hi. apply elem_of_range in Hi. unfold bind.
      rewrite read_wrap by (done || lia). fold b.
      rewrite (Z.mod_small i) by lia.
      destruct (String.eqb _ d); [done|].
      rewrite read_wrap by (done || lia). fold b.
      rewrite (Z.mod_small i) by lia. by destruct (String.eqb _ d). }
  destruct (first_some _ (range 0 9)) as [v|] eqn:Hrc.
  { apply first_some_elem in Hrc as (i & Hi & Hhit).
    apply elem_of_range in Hi. exists v. split; [done|].
    destruct (String.eqb_spec (cell b (row mod 9, i)) d) as [Hd|_].
    - injection Hhit as <-. split; [done|]. intros H. exfalso.
      apply (H (row mod 9, i)); [|done]. split; [|by left].
      unfold in_grid. simpl. Z.div_mod_to_equations. lia.
    - destruct (String.eqb_spec (cell b (i, col mod 9)) d) as [Hd|_]; [|done].
      injection Hhit as <-. split; [done|]. intros H. exfalso.
      apply (H (i, col mod 9)); [|done]. split; [|right; by left].
      unfold in_grid. simpl. Z.div_mod_to_equations. lia. }
  rewrite first_some_None in Hrc.
  unfold bind.
  rewrite (for_each_pure _ _ (λ i,
    first_some (λ j, if String.eqb (cell b (i mod 9, j mod 9)) d then Some false else None)
      (range (col / 3 * 3) (col / 3 * 3 + 3)))).
  2:{ intros i Hi. apply for_each_pure. intros j Hj.
      apply elem_of_range in Hi, Hj. unfold bind.
      rewrite read_wrap; [|done|Z.div_mod_to_equations; lia..]. fold b.
      by destruct (String.eqb _ d). }
  destruct (first_some _ (range (row / 3 * 3) _)) as [v|] eqn:Hbx.
  { apply first_some_elem in Hbx as (i & Hi & Hrow).
    apply first_some_elem in Hrow as (j & Hj & Hhit).
    apply elem_of_range in Hi, Hj. exists v. split; [done|].
    destruct (String.eqb_spec (cell b (i mod 9, j mod 9)) d) as [Hd|_]; [|done].
    injection Hhit as <-. split; [done|]. intros H. exfalso.
    apply (H (i mod 9, j mod 9)); [|done]. unfold scanned, in_grid. cbn [fst snd].
    split; [Z.div_mod_to_equations; lia|]. right. right.
    Z.div_mod_to_equations. lia. }
  rewrite first_some_None in Hbx.
  exists true. split; [done|]. split; [|done]. intros _ [i j] [Hq Hscan].
  destruct Hq as [Hi Hj]. cbn [fst snd] in *.
  destruct Hscan as [->|[->|[Hi' Hj']]].
  - specialize (Hrc j ltac:(apply elem_of_range; lia)). simpl in Hrc.
    by destruct (String.eqb_spec (cell b (row mod 9, j)) d).
  - specialize (Hrc i ltac:(apply elem_of_range; lia)). simpl in Hrc.
    destruct (String.eqb_spec (cell b (row mod 9, i)) d); [done|].
    by destruct (String.eqb_spec (cell b (i, col mod 9)) d).
  - specialize (Hbx (i + (row - row mod 9))
      ltac:(apply elem_of_range; Z.div_mod_to_equations; lia)).
    cbv beta in Hbx. rewrite first_some_None in Hbx.
    specialize (Hbx (j + (col - col mod 9))
      ltac:(apply elem_of_range; Z.div_mod_to_equations; lia)).
    cbv beta in Hbx.
    replace ((i + (row - row mod 9)) mod 9) with i in Hbx
      by (Z.div_mod_to_equations; lia).
    replace ((j + (col - col mod 9)) mod 9) with j in Hbx
      by (Z.div_mod_to_equations; lia).
    by destruct (String.eqb_spec (cell b (i, j)) d).
Qed.

Lemma range_cons (lo hi : Z) : lo < hi → range lo hi = lo :: range (lo + 1) hi.
Proof.
  intros Hlt. unfold range. rewrite seqZ_cons by lia. f_equal. f_equal; lia.
Qed.

(** X4.  On a 9x9 board [is_valid] takes a row and a column in [-9, 8]
    and reads a negative one from the end, as Python indexing does: the call
    answers as for the cell [(row % 9, col % 9)]. *)
Theorem is_valid_negative_index (st : state) (row col : Z) (digit : string) :
  shape9 (cells st) → -9 ≤ row < 9 → -9 ≤ col < 9 →
  is_valid row col digit st = is_valid (row mod 9) (col mod 9) digit st.
Proof.
  intros Hb Hr Hc.
  destruct (is_valid_wrap st row col digit Hb Hr Hc) as (v & -> & Hv).
  assert (Hp : in_grid (row mod 9, col mod 9)).
  { unfold in_grid. simpl. Z.div_mod_to_equations. lia. }
  destruct (is_valid_run st (row mod 9, col mod 9) digit Hb Hp) as (v' & Hrun & Hv').
  cbn [fst snd] in Hrun. rewrite Hrun. rewrite <- Hv' in Hv.
  f_equal. f_equal. destruct v, v'; try done.
  - by destruct Hv as [-> _].
  - by destruct Hv as [_ ->].
Qed.

Lemma is_valid_negative_index_witness :
  shape9 classic ∧ -9 ≤ -1 < 9 ∧ -9 ≤ -7 < 9 ∧
  is_valid (-1) (-7) "4" (State classic []) =
  is_valid (-1 mod 9) (-7 mod 9) "4" (State classic []).
Proof.
  assert (H1 : shape9 classic) by by_evaluation.
  assert (H2 : -9 ≤ -1 < 9) by lia.
  assert (H3 : -9 ≤ -7 < 9) by lia.
  split; [exact H1|]. split; [exact H2|]. split; [exact H3|].
  apply (is_valid_negative_index (State classic []) (-1) (-7) "4" H1 H2 H3).
Defined.

(** X5.  On a 9x9 board [is_valid] never answers [True] for a coordinate
    outside of [-9, 8]: a row outside raises [IndexError]; a column outside
    raises [IndexError] too, unless the first cell of the row holds the
    digit, in which case the answer is [False].  The board is left as it
    was. *)
Theorem is_valid_out_of_range (st : state) (row col : Z) (digit : string) :
  shape9 (cells st) → ¬ (-9 ≤ row < 9 ∧ -9 ≤ col < 9) →
  is_valid row col digit st =
    if decide (-9 ≤ row < 9) then
      if String.eqb (cell (cells st) (row mod 9, 0)) digit then (Done false, st)
      else (IndexError, st)
    else (IndexError, st).
Proof.
  intros Hb Hout. unfold is_valid. rewrite (range_cons 0 9) by lia.
  cbn [for_each]. unfold bind.
  destruct (decide (-9 ≤ row < 9)) as [Hr|Hr].
  - rewrite read_wrap by (done || lia). rewrite (Z.mod_small 0) by lia.
    destruct (String.eqb _ digit); [done|].
    rewrite read_col_out; [done|done|lia|]. intros Hc. by apply Hout.
  - by rewrite read_row_out.
Qed.

Lemma is_valid_out_of_range_witness :
  shape9 classic ∧ ¬ (-9 ≤ 0 < 9 ∧ -9 ≤ 9 < 9) ∧
  is_valid 0 9 "5" (State classic []) =
    if decide (-9 ≤ 0 < 9) then
      if String.eqb (cell classic (0 mod 9, 0)) "5" then (Done false, State classic [])
      else (IndexError, State classic [])
    else (IndexError, State classic []).
Proof.
  assert (H1 : shape9 classic) by by_evaluation.
  assert (H2 : ¬ (-9 ≤ 0 < 9 ∧ -9 ≤ 9 < 9)) by lia.
  split; [exact H1|]. split; [exact H2|].
  apply (is_valid_out_of_range (State classic []) 0 9 "5" H1 H2).
Defined.

Example is_valid_column_9 :
  is_valid 0 9 "5" (State classic []) = (Done false, State classic []) ∧
  is_valid 0 9 "4" (State classic []) = (IndexError, State classic []).
Proof. split; vm_compute; reflexivity. Qed.

(** ** The user interface *)

Lemma py_in_elem_of (x : string) (l : list string) : py_in x l = true ↔ x ∈ l.
Proof.
  unfold py_in. rewrite existsb_exists, list_elem_of_In. split.
  - intros (y & Hy & Hxy). by apply String.eqb_eq in Hxy as ->.
  - intros Hx. exists x. split; [done|]. apply String.eqb_refl.
Qed.

(** X10.  [validate_entry] leaves in the widget a digit ['1'..'9'] or
    nothing, and it keeps the text exactly when the text is one of these:
    the characters that the grid accepts are the digits that the solver
    places. *)
Theorem validate_entry_digits (text : string) :
  SudokuUI.validate_entry text ∈ "" :: digits ∧
  (SudokuUI.validate_entry text = text ↔ text ∈ "" :: digits).
Proof.
  unfold SudokuUI.validate_entry, Entry.get, Entry.delete_all.
  change (py_list_of_str "123456789") with digits.
  destruct (py_in text digits) eqn:Hin; simpl.
  - apply py_in_elem_of in Hin. split; [by right|]. split; [by right|done].
  - split; [by left|]. split.
    + intros <-. by left.
    + intros Ht. apply elem_of_cons in Ht as [->|Ht]; [done|].
      apply py_in_elem_of in Ht. congruence.
Qed.

Lemma append_empty_r (s : string) : (s ++ "")%string = s.
Proof.
  induction s as [|c s IH]; [done|].
  change (String c (String.append s "") = String c s). by rewrite IH.
Qed.

Lemma getitem2_run (b : list (list string)) (p : Z * Z) :
  shape9 b → in_grid p →
  (row ← py_getitem b p.1; py_getitem row p.2) = Some (cell b p).
Proof.
  intros Hb Hp.
  destruct (shape9_lookup _ _ Hb Hp) as (row & Hrow & Hlen & Hv).
  destruct Hb as [Hb _]. destruct Hp as [Hi Hj].
  unfold py_getitem. rewrite py_norm_in_range by lia. simpl. rewrite Hrow. simpl.
  rewrite py_norm_in_range by lia. simpl. done.
Qed.

Lemma upd_upd (b : list (list string)) (p : Z * Z) (v w : string) :
  shape9 b → in_grid p → upd (upd b p v) p w = upd b p w.
Proof.
  intros Hb Hp. apply board_ext; [by do 2 apply shape9_upd|by apply shape9_upd|].
  intros q Hq. rewrite !cell_upd by (done || by apply shape9_upd).
  by destruct (decide (p = q)).
Qed.

Lemma with_entry_run (p : Z * Z) (text : string) (u : SudokuUI.ui) :
  shape9 (SudokuUI.entries u) → in_grid p →
  SudokuUI.with_entry p.1 p.2 text u =
    SudokuUI.UI (upd (SudokuUI.entries u) p text) (SudokuUI.dialogs u)
      (SudokuUI.printed u).
Proof. intros He Hp. unfold SudokuUI.with_entry. by rewrite assign_run. Qed.

Lemma set_board_cell_run (board : list (list string)) (p : Z * Z) (u : SudokuUI.ui) :
  shape9 (SudokuUI.entries u) → shape9 board → in_grid p →
  SudokuUI.set_board_cell board p.1 p.2 u = (Done tt, show_cell board p u).
Proof.
  intros He Hb Hp. unfold SudokuUI.set_board_cell, SudokuUI.entry_at, show_cell.
  rewrite getitem2_run, (getitem2_run board), with_entry_run by done.
  unfold Entry.delete_all, Entry.insert_0.
  destruct (String.eqb (cell board p) "."); simpl; [done|].
  rewrite getitem2_run by (done || by apply shape9_upd).
  rewrite with_entry_run by (done || by apply shape9_upd). simpl.
  by rewrite cell_upd_eq, upd_upd, append_empty_r.
Qed.

Lemma for_in_run {A : Type} (l : list A) (body : A → SudokuUI.U unit)
    (g : A → SudokuUI.ui → SudokuUI.ui) (Inv : SudokuUI.ui → Prop) :
  (∀ x u, x ∈ l → Inv u → body x u = (Done tt, g x u) ∧ Inv (g x u)) →
  ∀ u, Inv u →
    SudokuUI.for_in l body u = (Done tt, foldl (λ u x, g x u) u l) ∧
    Inv (foldl (λ u x, g x u) u l).
Proof.
  induction l as [|a l IH]; intros Hbody u Hu; [done|]. simpl.
  destruct (Hbody a u ltac:(by left) Hu) as [-> Hu'].
  apply IH; [|done]. intros x u' Hx. apply Hbody. by right.
Qed.

Lemma foldl_bind {A B C : Type} (f : A → C → A) (k : B → list C) (l : list B) (a : A) :
  foldl f a (l ≫= k) = foldl (λ a x, foldl f a (k x)) a l.
Proof.
  revert a. induction l as [|x l IH]; intros a; [done|].
  csimpl. by rewrite foldl_app, IH.
Qed.

Lemma show_cell_foldl (board : list (list string)) (ps : list (Z * Z)) (u : SudokuUI.ui) :
  SudokuUI.dialogs (foldl (λ u p, show_cell board p u) u ps) = SudokuUI.dialogs u ∧
  SudokuUI.printed (foldl (λ u p, show_cell board p u) u ps) = SudokuUI.printed u.
Proof. revert u. induction ps as [|p ps IH]; intros u; [done|]. simpl. by rewrite !(proj1 (IH _)), !(proj2 (IH _)). Qed.

Lemma show_cell_foldl_cell (board : list (list string)) (ps : list (Z * Z))
    (u : SudokuUI.ui) (q : Z * Z) :
  shape9 (SudokuUI.entries u) → Forall in_grid ps → in_grid q →
  shape9 (SudokuUI.entries (foldl (λ u p, show_cell board p u) u ps)) ∧
  cell (SudokuUI.entries (foldl (λ u p, show_cell board p u) u ps)) q =
    if decide (q ∈ ps)
    then (if String.eqb (cell board q) "." then "" else cell board q)
    else cell (SudokuUI.entries u) q.
Proof.
  intros He Hps Hq. revert u He. induction Hps as [|p ps Hp Hps IH]; intros u He.
  { cbn [foldl]. split; [done|].
    destruct (decide (q ∈ [])) as [H|]; [by apply elem_of_nil in H|done]. }
  cbn [foldl]. destruct (IH (show_cell board p u)) as [Hshape Hcell].
  { unfold show_cell. cbn [SudokuUI.entries]. by apply shape9_upd. }
  split; [done|]. rewrite Hcell. unfold show_cell at 1. cbn [SudokuUI.entries].
  destruct (decide (q ∈ ps)) as [Hin|Hnin].
  - rewrite decide_True; [done|by right].
  - rewrite cell_upd by done. destruct (decide (p = q)) as [->|Hne].
    + rewrite decide_True; [done|by left].
    + rewrite decide_False; [done|]. intros Hin.
      apply elem_of_cons in Hin as [?|?]; congruence.
Qed.

Lemma cell_shown (board : list (list string)) (q : Z * Z) :
  shape9 board → in_grid q →
  cell (shown board) q = if String.eqb (cell board q) "." then "" else cell board q.
Proof.
  intros Hb Hq. destruct (shape9_lookup _ _ Hb Hq) as (row & Hrow & _ & Hv).
  unfold cell at 1, shown. rewrite list_lookup_fmap, Hrow. simpl.
  by rewrite list_lookup_fmap, Hv.
Qed.

Lemma shape9_shown (board : list (list string)) : shape9 board → shape9 (shown board).
Proof.
  intros [Hlen Hrows]. unfold shown. split; [by rewrite length_fmap|].
  apply Forall_fmap. eapply Forall_impl; [exact Hrows|].
  intros row Hrow. simpl. by rewrite length_fmap.
Qed.

Lemma set_board_run (board : list (list string)) (u : SudokuUI.ui) :
  shape9 (SudokuUI.entries u) → shape9 board →
  SudokuUI.set_board board u =
    (Done tt, SudokuUI.UI (shown board) (SudokuUI.dialogs u) (SudokuUI.printed u)).
Proof.
  intros He Hb. unfold SudokuUI.set_board.
  set (Inv := λ u : SudokuUI.ui, shape9 (SudokuUI.entries u)).
  assert (Hcell : ∀ p u, in_grid p → Inv u →
    SudokuUI.set_board_cell board p.1 p.2 u = (Done tt, show_cell board p u)
    ∧ Inv (show_cell board p u)).
  { intros p u0 Hp Hu0. split; [by apply set_board_cell_run|].
    unfold Inv. simpl. by apply shape9_upd. }
  assert (Hrow : ∀ i u, i ∈ range 0 9 → Inv u →
    SudokuUI.for_in (range 0 9) (λ j, SudokuUI.set_board_cell board i j) u =
      (Done tt, foldl (λ u j, show_cell board (i, j) u) u (range 0 9))
    ∧ Inv (foldl (λ u j, show_cell board (i, j) u) u (range 0 9))).
  { intros i u0 Hi Hu0.
    apply (for_in_run _ _ (λ j, show_cell board (i, j)) Inv); [|done].
    intros j u1 Hj Hu1. apply elem_of_range in Hi, Hj. by apply (Hcell (i, j)). }
  refine (eq_trans (proj1 (for_in_run _ _ _ Inv Hrow u He)) _). f_equal.
  assert (Hgrid : foldl (λ u i, foldl (λ u j, show_cell board (i, j) u) u (range 0 9))
                    u (range 0 9)
                  = foldl (λ u p, show_cell board p u) u grid).
  { unfold grid. rewrite foldl_bind. f_equal. }
  rewrite Hgrid.
  destruct (show_cell_foldl board grid u) as [Hd Hp].
  assert (Hent : SudokuUI.entries (foldl (λ u p, show_cell board p u) u grid)
                 = shown board).
  { assert (Hg : Forall in_grid grid).
    { apply Forall_forall. intros p. apply elem_of_grid. }
    apply board_ext.
    - by apply (show_cell_foldl_cell board grid u (0, 0)); [| |by_evaluation].
    - by apply shape9_shown.
    - intros q Hq.
      destruct (show_cell_foldl_cell board grid u q He Hg Hq) as [_ ->].
      rewrite decide_True by by apply elem_of_grid. by rewrite cell_shown. }
  destruct (foldl (λ u p, show_cell board p u) u grid) as [e d pr].
  simpl in *. by subst.
Qed.

Lemma get_board_entries (u : SudokuUI.ui) : SudokuUI.get_board u = SudokuUI.entries u.
Proof.
  unfold SudokuUI.get_board, Entry.get.
  rewrite <- (list_fmap_id (SudokuUI.entries u)) at 2.
  apply list_fmap_ext. intros _ row _. apply list_fmap_id.
Qed.

Lemma shown_id (board : list (list string)) :
  shape9 board → (∀ q, in_grid q → cell board q ≠ ".") → shown board = board.
Proof.
  intros Hb Hdot. apply board_ext; [by apply shape9_shown|done|].
  intros q Hq. rewrite cell_shown by done.
  destruct (String.eqb_spec (cell board q) "."); [|done]. by destruct (Hdot q Hq).
Qed.

Lemma digit_cells_no_dot (board : list (list string)) (q : Z * Z) :
  digit_cells board → in_grid q → cell board q ≠ ".".
Proof.
  rewrite digit_cells_spec. intros Hd Hq Heq. specialize (Hd q Hq).
  rewrite Heq in Hd. revert Hd. by_evaluation.
Qed.

Lemma fills_digit_cells (b s : list (list string)) :
  digit_cells b → fills b s → digit_cells s.
Proof.
  rewrite !digit_cells_spec. intros Hd [_ Hs] q Hq.
  destruct (Hs q Hq) as [Hkeep Hnew].
  destruct (decide (cell b q = "")) as [Hnil|Hne].
  - right. by apply Hnew.
  - rewrite Hkeep by done. by apply Hd.
Qed.

(** X11.  On the 9x9 grid, [get_board] after [set_board(board)] returns
    the 9x9 [board] with every ["."] replaced by the empty marker, so
    exactly [board] when no cell holds ["."]; no dialog is shown. *)
Theorem set_board_get_board (board : list (list string)) (u : SudokuUI.ui) :
  shape9 (SudokuUI.entries u) → shape9 board →
  ∃ u', SudokuUI.set_board board u = (Done tt, u') ∧
        SudokuUI.get_board u' = shown board ∧
        ((∀ q, in_grid q → cell board q ≠ ".") → SudokuUI.get_board u' = board) ∧
        SudokuUI.dialogs u' = SudokuUI.dialogs u.
Proof.
  intros He Hb. eexists. split; [by apply set_board_run|].
  rewrite get_board_entries. cbn [SudokuUI.entries SudokuUI.dialogs].
  split; [done|]. split; [|done]. intros Hdot. by apply shown_id.
Qed.

Lemma set_board_get_board_witness :
  shape9 classic ∧ shape9 classic_solution ∧
  ∃ u', SudokuUI.set_board classic_solution (SudokuUI.UI classic [] [])
          = (Done tt, u') ∧
        SudokuUI.get_board u' = shown classic_solution ∧
        ((∀ q, in_grid q → cell classic_solution q ≠ ".") →
         SudokuUI.get_board u' = classic_solution) ∧
        SudokuUI.dialogs u' = [].
Proof.
  assert (H1 : shape9 classic) by by_evaluation.
  assert (H2 : shape9 classic_solution) by by_evaluation.
  split; [exact H1|]. split; [exact H2|].
  apply (set_board_get_board classic_solution (SudokuUI.UI classic [] []) H1 H2).
Defined.

(** The run of [SudokuUI.solve] on the 9x9 grid. *)
Lemma ui_solve_run (u : SudokuUI.ui) (n : nat) :
  shape9 (SudokuUI.entries u) → (81 ≤ n)%nat →
  ∃ r st' u',
    solve_sudoku n (State (SudokuUI.entries u) []) = (Done r, st') ∧
    SudokuUI.solve n u = (Done tt, u') ∧
    shape9 (cells st') ∧
    (if r then fills (SudokuUI.entries u) (cells st')
     else ∀ s, ¬ fills (SudokuUI.entries u) s) ∧
    SudokuUI.printed u' = SudokuUI.entries u :: SudokuUI.printed u ∧
    if r then
      SudokuUI.entries u' = shown (cells st') ∧
      SudokuUI.dialogs u' = SudokuUI.dialogs u
    else
      SudokuUI.entries u' = SudokuUI.entries u ∧
      SudokuUI.dialogs u' =
        ("Sudoku Solver", "No solution found.") :: SudokuUI.dialogs u.
Proof.
  intros He Hn.
  destruct (solve_sudoku_run (State (SudokuUI.entries u) []) n He Hn)
    as (r & b' & tr & Hout & Hb' & _ & Hr).
  cbn [cells history] in *.
  unfold SudokuUI.solve. rewrite get_board_entries, Hout.
  exists r, (State b' (tr ++ [])). destruct r; simpl.
  - eexists. split; [done|]. split; [by apply set_board_run|]. done.
  - eexists. split; [done|]. split; [done|]. destruct Hr as [-> Hnone]. done.
Qed.

(** X12.  Pressing Solve on the 9x9 grid: when [solve_sudoku] returns
    [True] on the board read from the grid, the grid shows the board the
    solver left (exactly, when the grid held digits and empty cells only)
    and no dialog appears; when it returns [False], one dialog "No solution
    found." appears and the grid is as it was.  The board read is printed
    once. *)
Theorem ui_solve_outcome (u : SudokuUI.ui) (n : nat) :
  shape9 (SudokuUI.entries u) → (81 ≤ n)%nat →
  ∃ r st' u',
    solve_sudoku n (State (SudokuUI.entries u) []) = (Done r, st') ∧
    SudokuUI.solve n u = (Done tt, u') ∧
    SudokuUI.printed u' = SudokuUI.entries u :: SudokuUI.printed u ∧
    if r then
      SudokuUI.entries u' = shown (cells st') ∧
      (digit_cells (SudokuUI.entries u) → SudokuUI.entries u' = cells st') ∧
      SudokuUI.dialogs u' = SudokuUI.dialogs u
    else
      SudokuUI.entries u' = SudokuUI.entries u ∧
      SudokuUI.dialogs u' =
        ("Sudoku Solver", "No solution found.") :: SudokuUI.dialogs u.
Proof.
  intros He Hn.
  destruct (ui_solve_run u n He Hn) as (r & st' & u' & Hrun & Hui & Hs & Hr & Hpr & Hout).
  exists r, st', u'. split; [done|]. split; [done|]. split; [done|].
  destruct r; [|done]. destruct Hout as [Hent Hdlg].
  split; [done|]. split; [|done]. intros Hdig. rewrite Hent.
  apply shown_id; [done|]. intros q Hq.
  apply digit_cells_no_dot; [|done]. by apply (fills_digit_cells (SudokuUI.entries u)).
Qed.

Lemma ui_solve_outcome_witness :
  shape9 dead_end ∧
  ∃ r st' u',
    solve_sudoku 81 (State dead_end []) = (Done r, st') ∧
    SudokuUI.solve 81 (SudokuUI.UI dead_end [] []) = (Done tt, u') ∧
    SudokuUI.printed u' = [dead_end] ∧
    if r then
      SudokuUI.entries u' = shown (cells st') ∧
      (digit_cells dead_end → SudokuUI.entries u' = cells st') ∧
      SudokuUI.dialogs u' = []
    else
      SudokuUI.entries u' = dead_end ∧
      SudokuUI.dialogs u' = [("Sudoku Solver", "No solution found.")].
Proof.
  assert (H1 : shape9 dead_end) by by_evaluation.
  split; [exact H1|].
  apply (ui_solve_outcome (SudokuUI.UI dead_end [] []) 81); [exact H1|lia].
Defined.

Lemma cell_blank (q : Z * Z) : in_grid q → cell blank q = "".
Proof.
  intros [Hi Hj]. unfold cell, blank.
  rewrite lookup_replicate_2 by lia. cbn -[replicate lookup].
  by rewrite lookup_replicate_2 by lia.
Qed.

Lemma clear_board_blank (u : SudokuUI.ui) :
  shape9 (SudokuUI.entries u) →
  SudokuUI.clear_board u =
    (Done tt, SudokuUI.UI blank (SudokuUI.dialogs u) (SudokuUI.printed u)).
Proof.
  intros He. unfold SudokuUI.clear_board, Entry.delete_all. do 2 f_equal.
  pose proof He as [Hlen Hrows]. apply board_ext.
  - split; [by rewrite length_fmap|]. apply Forall_fmap.
    eapply Forall_impl; [exact Hrows|]. intros row Hrow. simpl.
    by rewrite length_fmap.
  - by_evaluation.
  - intros q Hq. rewrite cell_blank by done.
    destruct (shape9_lookup _ _ He Hq) as (row & Hrow & _ & Hv).
    unfold cell. rewrite list_lookup_fmap, Hrow. simpl.
    by rewrite list_lookup_fmap, Hv.
Qed.

(** X13.  Clear, then Solve: whatever the 9x9 grid held, it then shows a
    complete grid with each digit once in every row, column and box, and
    no dialog appears. *)
Theorem ui_clear_then_solve (u : SudokuUI.ui) (n : nat) :
  shape9 (SudokuUI.entries u) → (81 ≤ n)%nat →
  ∃ u1 u2, SudokuUI.clear_board u = (Done tt, u1) ∧
           SudokuUI.entries u1 = blank ∧
           SudokuUI.solve n u1 = (Done tt, u2) ∧
           shape9 (SudokuUI.entries u2) ∧ solved (SudokuUI.entries u2) ∧
           SudokuUI.dialogs u2 = SudokuUI.dialogs u.
Proof.
  intros He Hn.
  set (u1 := SudokuUI.UI blank (SudokuUI.dialogs u) (SudokuUI.printed u)).
  assert (Hblank : shape9 blank) by by_evaluation.
  destruct (ui_solve_run u1 n Hblank Hn)
    as (r & st' & u2 & Hrun & Hui & Hs & Hr & _ & Hout).
  cbn [SudokuUI.entries SudokuUI.dialogs] in *.
  exists u1, u2. split; [by apply clear_board_blank|]. split; [done|].
  split; [done|]. destruct r.
  - assert (Hc : completion blank (cells st')).
    { apply fills_completion; [by_evaluation|by_evaluation|done]. }
    destruct Hout as [Hent Hdlg]. rewrite Hent, Hdlg.
    rewrite shown_id; [by destruct Hc as (? & ? & _)|done|].
    intros q Hq. apply digit_cells_no_dot; [|done].
    apply (fills_digit_cells blank); [by_evaluation|done].
  - destruct (Hr classic_solution). apply completion_fills. by_evaluation.
Qed.

Lemma ui_clear_then_solve_witness :
  shape9 classic ∧
  ∃ u1 u2, SudokuUI.clear_board (SudokuUI.UI classic [] []) = (Done tt, u1) ∧
           SudokuUI.entries u1 = blank ∧
           SudokuUI.solve 81 u1 = (Done tt, u2) ∧
           shape9 (SudokuUI.entries u2) ∧ solved (SudokuUI.entries u2) ∧
           SudokuUI.dialogs u2 = [].
Proof.
  assert (H1 : shape9 classic) by by_evaluation.
  split; [exact H1|].
  apply (ui_clear_then_solve (SudokuUI.UI classic [] []) 81); [exact H1|lia].
Defined.

(** X14.  Pressing Solve on a 9x9 grid of digits and empty cells whose
    filled cells are mutually consistent: when the grid has a valid
    completion, the grid then shows one, with each digit once in every row,
    column and box and the typed digits in place, and no dialog appears;
    when it has none, the dialog "No solution found." appears and the grid
    is as it was. *)
Theorem ui_solve_correct (u : SudokuUI.ui) (n : nat) :
  shape9 (SudokuUI.entries u) → digit_cells (SudokuUI.entries u) →
  consistent (SudokuUI.entries u) → (81 ≤ n)%nat →
  ∃ u', SudokuUI.solve n u = (Done tt, u') ∧
        ((∃ s, completion (SudokuUI.entries u) s) →
         shape9 (SudokuUI.entries u') ∧ solved (SudokuUI.entries u') ∧
         extends (SudokuUI.entries u) (SudokuUI.entries u') ∧
         SudokuUI.dialogs u' = SudokuUI.dialogs u) ∧
        ((∀ s, ¬ completion (SudokuUI.entries u) s) →
         SudokuUI.entries u' = SudokuUI.entries u ∧
         SudokuUI.dialogs u' =
           ("Sudoku Solver", "No solution found.") :: SudokuUI.dialogs u).
Proof.
  intros He Hdig Hcons Hn.
  destruct (ui_solve_run u n He Hn)
    as (r & st' & u' & Hrun & Hui & Hs & Hr & _ & Hout).
  exists u'. split; [done|]. destruct r.
  - assert (Hc : completion (SudokuUI.entries u) (cells st'))
      by by apply fills_completion.
    destruct Hout as [Hent Hdlg]. rewrite shown_id in Hent; [|done|].
    2:{ intros q Hq. apply digit_cells_no_dot; [|done].
        by apply (fills_digit_cells (SudokuUI.entries u)). }
    split.
    + intros _. rewrite Hent. by destruct Hc as (? & ? & ?).
    + intros Hnone. by destruct (Hnone (cells st')).
  - split; [|done]. intros [s Hc]. destruct (Hr s). by apply completion_fills.
Qed.

Lemma ui_solve_correct_witness :
  shape9 classic ∧ digit_cells classic ∧ consistent classic ∧
  ∃ u', SudokuUI.solve 81 (SudokuUI.UI classic [] []) = (Done tt, u') ∧
        ((∃ s, completion classic s) →
         shape9 (SudokuUI.entries u') ∧ solved (SudokuUI.entries u') ∧
         extends classic (SudokuUI.entries u') ∧
         SudokuUI.dialogs u' = []) ∧
        ((∀ s, ¬ completion classic s) →
         SudokuUI.entries u' = classic ∧
         SudokuUI.dialogs u' = [("Sudoku Solver", "No solution found.")]).
Proof.
  assert (H1 : shape9 classic) by by_evaluation.
  assert (H2 : digit_cells classic) by by_evaluation.
  assert (H3 : consistent classic) by by_evaluation.
  split; [exact H1|]. split; [exact H2|]. split; [exact H3|].
  apply (ui_solve_correct (SudokuUI.UI classic [] []) 81); [exact H1|exact H2|exact H3|lia].
Defined.

Example ui_solve_classic :
  let (r, u') := SudokuUI.solve 81 (SudokuUI.UI classic [] []) in
  r = Done tt ∧ SudokuUI.entries u' = classic_solution ∧ SudokuUI.dialogs u' = [].
Proof. vm_compute. done. Qed.

(** ** The recursion budget on boards of any shape *)

Lemma fuel_free_ret {A : Type} (a : A) : fuel_free (ret a).
Proof. done. Qed.

Lemma fuel_free_bind {A B : Type} (m : M A) (k : A → M B) :
  fuel_free m → (∀ a, fuel_free (k a)) → fuel_free (bind m k).
Proof.
  intros Hm Hk st. unfold bind. specialize (Hm st).
  destruct (m st) as [[a| |] st1]; simpl in *; [apply Hk|done..].
Qed.

Lemma fuel_free_read (i j : Z) : fuel_free (read i j).
Proof.
  intros st. unfold read.
  destruct (py_getitem (cells st) i) as [row|]; [|done].
  by destruct (py_getitem row j).
Qed.

Lemma fuel_free_for_each {A B : Type} (l : list A) (body : A → M (option B)) :
  (∀ x, fuel_free (body x)) → fuel_free (for_each l body).
Proof.
  intros Hbody. induction l as [|a l IH]; simpl; [apply fuel_free_ret|].
  apply fuel_free_bind; [done|]. intros [y|]; [apply fuel_free_ret|done].
Qed.

Lemma fuel_free_if {A : Type} (c : bool) (m1 m2 : M A) :
  fuel_free m1 → fuel_free m2 → fuel_free (if c then m1 else m2).
Proof. by destruct c. Qed.

Lemma fuel_free_find_empty : fuel_free find_empty.
Proof.
  unfold find_empty.
  repeat first
    [ apply fuel_free_for_each; intros ?
    | apply fuel_free_bind; [|intros ?]
    | apply fuel_free_read
    | apply fuel_free_if
    | apply fuel_free_ret ].
Qed.

Lemma fuel_free_is_valid (row col : Z) (digit : string) :
  fuel_free (is_valid row col digit).
Proof.
  unfold is_valid.
  repeat first
    [ apply fuel_free_for_each; intros ?
    | apply fuel_free_bind; [|intros [?|]]
    | apply fuel_free_bind; [|intros ?]
    | apply fuel_free_read
    | apply fuel_free_if
    | apply fuel_free_ret ].
Qed.

Lemma assign_nonneg (b : board) (i j : Z) (v x : string) (r : list string) :
  0 ≤ i → 0 ≤ j →
  b !! Z.to_nat i = Some r → r !! Z.to_nat j = Some x →
  assign b i j v = Some (<[Z.to_nat i := <[Z.to_nat j := v]> r]> b).
Proof.
  intros Hi Hj Hr Hx. unfold assign, py_setitem.
  pose proof (lookup_lt_Some _ _ _ Hr). pose proof (lookup_lt_Some _ _ _ Hx).
  rewrite py_norm_in_range by lia. simpl. rewrite Hr. simpl.
  by rewrite py_norm_in_range by lia.
Qed.

Lemma count_empty_insert (b : board) (kr kc : nat) (r : list string) (d : string) :
  b !! kr = Some r → r !! kc = Some "" → d ≠ "" →
  S (count_empty (<[kr := <[kc := d]> r]> b)) = count_empty b.
Proof.
  intros Hr Hc Hd.
  assert (Halt : <[kr := <[kc := d]> r]> b = alter (λ row, <[kc := d]> row) kr b).
  { apply list_eq. intros k. destruct (decide (k = kr)) as [->|Hne].
    - rewrite list_lookup_alter_eq, Hr. simpl.
      apply list_lookup_insert_eq. by apply lookup_lt_Some in Hr.
    - by rewrite list_lookup_alter_ne, list_lookup_insert_ne by done. }
  rewrite Halt. unfold count_empty.
  pose proof (filter_length_concat_alter (λ v : string, v = "")
    (λ row, <[kc:=d]> row) b _ _ Hr) as Hsum.
  pose proof (filter_length_insert (λ v : string, v = "") r _ _ d Hc
    eq_refl Hd) as Hins.
  lia.
Qed.

Lemma insert_restore (b : board) (kr kc : nat) (r : list string) (d x : string) :
  b !! kr = Some r → r !! kc = Some x →
  <[kr := <[kc := x]> (<[kc := d]> r)]> (<[kr := <[kc := d]> r]> b) = b.
Proof.
  intros Hr Hc. rewrite !list_insert_insert_eq.
  rewrite (list_insert_id r) by done. by apply list_insert_id.
Qed.

Lemma try_digit_any (b : board) (row col : Z) (r0 : list string)
    (self_solve : M bool) (d : string) (h : list write_event) :
  0 ≤ row → 0 ≤ col →
  b !! Z.to_nat row = Some r0 → r0 !! Z.to_nat col = Some "" →
  (∀ st1, (count_empty (cells st1) < count_empty b)%nat →
          any_post st1 (self_solve st1)) →
  d ∈ digits →
  ∃ r st', try_digit self_solve row col d (State b h) = (r, st') ∧
           r ≠ OutOfFuel ∧ r ≠ Done (Some false) ∧
           (r = Done None → cells st' = b).
Proof.
  intros Hrow Hcol Hr0 Hnil Hrec Hd. unfold try_digit, bind.
  pose proof (read_only_is_valid row col d (State b h)) as Hro.
  pose proof (fuel_free_is_valid row col d (State b h)) as Hff.
  destruct (is_valid row col d (State b h)) as [[[|]| |] s1];
    cbn [fst snd] in Hro, Hff; subst s1;
    [|by eexists _, _|by eexists _, _|done].
  unfold write at 1. cbn [cells history].
  rewrite (assign_nonneg b row col d "" r0) by done.
  set (b1 := <[Z.to_nat row := <[Z.to_nat col := d]> r0]> b).
  set (e1 := WriteEvent row col d b1).
  destruct (Hrec (State b1 (e1 :: h))) as [Hnf Hfalse].
  { cbn [cells]. pose proof (count_empty_insert b _ _ r0 d Hr0 Hnil
      (digit_nonempty _ Hd)). fold b1 in H. lia. }
  cbn [ret].
  destruct (self_solve (State b1 (e1 :: h))) as [[[|]| |] [c2 h2]];
    cbn [fst snd cells] in *; [by eexists _, _| |by eexists _, _|done].
  rewrite (Hfalse eq_refl). unfold write. cbn [cells history].
  pose proof (lookup_lt_Some _ _ _ Hr0) as Hlt.
  pose proof (lookup_lt_Some _ _ _ Hnil) as Hlt'.
  rewrite (assign_nonneg b1 row col "" d (<[Z.to_nat col := d]> r0)); [|done..| |].
  - unfold b1. rewrite (insert_restore b _ _ r0 d "") by done. by eexists _, _.
  - unfold b1. by rewrite list_lookup_insert_eq.
  - by rewrite list_lookup_insert_eq.
Qed.

Lemma digits_loop_any (b : board) (row col : Z) (r0 : list string)
    (self_solve : M bool) :
  0 ≤ row → 0 ≤ col →
  b !! Z.to_nat row = Some r0 → r0 !! Z.to_nat col = Some "" →
  (∀ st1, (count_empty (cells st1) < count_empty b)%nat →
          any_post st1 (self_solve st1)) →
  ∀ ds h, (∀ d, d ∈ ds → d ∈ digits) →
    ∃ r st', for_each ds (try_digit self_solve row col) (State b h) = (r, st') ∧
             r ≠ OutOfFuel ∧ r ≠ Done (Some false) ∧
             (r = Done None → cells st' = b).
Proof.
  intros Hrow Hcol Hr0 Hnil Hrec ds. induction ds as [|d ds IH]; intros h Hds.
  { by eexists _, _. }
  assert (Hd : d ∈ digits) by (apply Hds; by left).
  assert (Hds' : ∀ d', d' ∈ ds → d' ∈ digits) by (intros d' Hd'; apply Hds; by right).
  rewrite for_each_cons_run.
  destruct (try_digit_any b row col r0 self_solve d h Hrow Hcol Hr0 Hnil Hrec Hd)
    as (r & [c2 h2] & -> & Hnf & Hnsf & Hnone).
  destruct r as [[[|]|]| |]; cbn [cells] in *; try done; [by eexists _, _| |by eexists _, _].
  rewrite (Hnone eq_refl). by apply IH.
Qed.

Lemma solve_body_any (self_solve : M bool) (st : state) :
  (∀ st1, (count_empty (cells st1) < count_empty (cells st))%nat →
          any_post st1 (self_solve st1)) →
  any_post st (solve_body self_solve st).
Proof.
  intros Hrec. unfold any_post. rewrite solve_body_unfold.
  pose proof (fuel_free_find_empty st) as Hff.
  destruct (find_empty st) as [[[[row col]|]| |] st1] eqn:Hfe;
    cbn [fst] in Hff; [| |done|done].
  - apply find_empty_Done in Hfe as [-> [[Hr Hc] Hread]]. cbn [fst snd] in *.
    apply read_Done_lookup in Hread as (r0 & Hr0 & Hnil); [|lia..].
    destruct st as [b h]. cbn [cells] in *.
    destruct (digits_loop_any b row col r0 self_solve ltac:(lia) ltac:(lia)
                Hr0 Hnil Hrec digits h ltac:(done))
      as (r & st2 & -> & Hnf & Hnsf & Hnone).
    destruct r as [[[|]|]| |]; cbn [fst snd] in *; try done.
    split; [done|]. intros _. by apply Hnone.
  - apply find_empty_Done in Hfe as [-> _]. done.
Qed.

(** On a board of any shape, a budget of as many nested calls as the board
    has empty cells is not exhausted, and a call that returns [False]
    leaves the board as it was. *)
Lemma solve_sudoku_any (n : nat) (st : state) :
  (count_empty (cells st) ≤ n)%nat → any_post st (solve_sudoku n st).
Proof.
  revert st. induction n as [|n IH]; intros st Hn; simpl; apply solve_body_any.
  - intros st1 Hlt. lia.
  - intros st1 Hlt. apply IH. lia.
Qed.

(** X9.  On a board that lacks some of the 81 cells the solver reads (fewer
    than nine rows, or fewer than nine cells in one of the first nine rows),
    [solve_sudoku] never returns [True]; given a budget of as many nested
    calls as the board has empty cells, the run is not cut short by the
    budget: it raises [IndexError] or returns [False]. *)
Theorem solve_sudoku_needs_grid (st : state) (n : nat) :
  ¬ covers_grid (cells st) → (count_empty (cells st) ≤ n)%nat →
  ((solve_sudoku n st).1 = IndexError ∨ (solve_sudoku n st).1 = Done false) ∧
  ∀ m, (solve_sudoku m st).1 ≠ Done true.
Proof.
  intros Hno Hn.
  assert (Hnever : ∀ m, (solve_sudoku m st).1 ≠ Done true).
  { intros m Htrue. apply Hno.
    apply (covers_grid_same_shape _ (cells (solve_sudoku m st).2)).
    { apply (keeps_solve_sudoku (λ st st', same_shape (cells st) (cells st'))).
      apply write_same_shape. }
    destruct (solve_sudoku m st) as [r st'] eqn:Hrun. simpl in *. subst r.
    apply solve_sudoku_true_leaf in Hrun. by apply find_empty_None_covers in Hrun. }
  split; [|done]. specialize (Hnever n).
  destruct (solve_sudoku_any n st Hn) as [Hfuel _].
  destruct (solve_sudoku n st) as [[[|]| |] st']; simpl in *; try done; auto.
Qed.

Lemma solve_sudoku_needs_grid_witness :
  ¬ covers_grid short_row ∧ (count_empty short_row ≤ 8)%nat ∧
  ((solve_sudoku 8 (State short_row [])).1 = IndexError ∨
   (solve_sudoku 8 (State short_row [])).1 = Done false) ∧
  ∀ m, (solve_sudoku m (State short_row [])).1 ≠ Done true.
Proof.
  assert (H1 : ¬ covers_grid short_row) by by_evaluation.
  assert (H2 : (count_empty short_row ≤ 8)%nat) by by_evaluation.
  split; [exact H1|]. split; [exact H2|].
  apply (solve_sudoku_needs_grid (State short_row []) 8 H1 H2).
Defined.

Example short_row_runs :
  (solve_sudoku 8 (State short_row [])).1 = IndexError ∧
  length (history (solve_sudoku 8 (State short_row [])).2) = 8%nat ∧
  (solve_sudoku 3 (State short_row [])).1 = OutOfFuel.
Proof. vm_compute. done. Qed.

Example backtrack_undoes :
  shape9 backtrack ∧ digit_cells backtrack ∧ consistent backtrack ∧
  (solve_sudoku 81 (State backtrack [])).1 = Done false ∧
  cells (solve_sudoku 81 (State backtrack [])).2 = backtrack ∧
  (λ e, (w_row e, w_col e, w_val e)) <$> history (solve_sudoku 81 (State backtrack [])).2
    = [(0, 0, ""); (0, 0, "1")].
Proof.
  split; [by_evaluation|]. split; [by_evaluation|]. split; [by_evaluation|].
  vm_compute. done.
Qed.
